(** * Mandelbrot viewer: escape-time evaluators and viewport transforms

    A shallow embedding of the numerical core of the repository:

    - the GLSL fragment shader [fragment.glsl] ([Fragment]),
    - the fragment shader inlined in the WebGL renderer and the renderer's
      viewport methods ([WebGL]),
    - the Canvas-2D pixel loop of the first [index.ts] ([Canvas2D]),
    - the pointer and wheel handlers of the two WebGL-based [index.ts]
      revisions ([Index], [IndexTooltip]), the listeners of the page as one
      step function ([Page]) and the decimals of the tooltip
      ([TooltipFormat]),
    - the colour functions of the shaders ([Shading]) and the viewport of
      the Canvas-2D revision ([Canvas2DView]).

    Numbers.  JavaScript [number]s and GLSL [float]s are embedded as the
    real numbers [R]: every arithmetic operation is exact, comparisons are
    the comparisons of [R], [Math.floor] is [Zfloor], [Math.min] is [Rmin],
    [Math.abs] is [Rabs] and [log] is [ln].  A literal without fractional
    part, such as [2.0] or [100.0], is written as the integer it denotes.
    Rounding, overflow, NaN and infinities are outside the model.  [ln] of
    the Standard Library is total ([ln x = 0] for [x <= 0]); no statement
    below rests on that completion: wherever a logarithm matters its
    argument is positive.
    GLSL [int]s and the integer-valued DOM attributes ([canvas.width],
    [clientWidth], ...) are [Z], injected with [IZR] where the code converts
    with [float(...)] or mixes them with numbers.

    Loops.  Each loop is a [Fixpoint] that tests the guard of the source
    first and then spends one unit of fuel on the body; the function the
    loop belongs to supplies the fuel, and a totality lemma shows that the
    fuel never runs out.  The component [steps] of a loop result is a ghost
    counter of the executions of the recurrence [z <- z^2 + c]; the source
    does not compute it. *)

From Stdlib Require Import Reals ZArith Bool Lia Lra.

Open Scope R_scope.

(** ** Comparisons of numbers as booleans *)

Definition Rltb (a b : R) : bool := if Rlt_dec a b then true else false.
Definition Rleb (a b : R) : bool := if Rle_dec a b then true else false.
Definition Rgtb (a b : R) : bool := Rltb b a.
Definition Rgeb (a b : R) : bool := Rleb b a.

(** ** Two-component vectors, as GLSL's [vec2] *)

Record vec2 : Type := Vec2 { vx : R; vy : R }.

Definition vadd (a b : vec2) : vec2 := Vec2 (vx a + vx b) (vy a + vy b).
Definition vdiv (a b : vec2) : vec2 := Vec2 (vx a / vx b) (vy a / vy b).
Definition dot (a b : vec2) : R := vx a * vx b + vy a * vy b.

(** The body shared by the three shader sources:
    [vec2 zSquared = vec2(z.x * z.x - z.y * z.y, 2.0 * z.x * z.y);
     z = zSquared + c;] *)
Definition zSquared (z : vec2) : vec2 :=
  Vec2 (vx z * vx z - vy z * vy z) (2 * vx z * vy z).

Definition zNext (c z : vec2) : vec2 := vadd (zSquared z) c.

(** The smooth-colouring block shared by the three shader sources:
    [float log_zn = log(dot(z, z)) / 2.0;
     float nu = log(log_zn / log(2.0)) / log(2.0);
     i = i + 1.0 - nu;] *)
Definition log_zn (z : vec2) : R := ln (dot z z) / 2.
Definition nu (z : vec2) : R := ln (log_zn z / ln 2) / ln 2.
Definition smooth (i : R) (z : vec2) : R := i + 1 - nu z.

(** What a loop hands to the code after it. *)
Record LoopResult : Type := Loop { count : R; zlast : vec2; steps : nat }.

(** ** The orbit of the specification

    [orbit c k] is the k-th term of [z <- z^2 + c] from [z = 0];
    [bounded_upto c m] says that none of the first [m] steps satisfies
    [|z|^2 > 4]; [escapes_at c n] says that the step of index [n]
    (counting from 0, so the term [orbit c (S n)]) is the first that does. *)

Fixpoint orbit (c : vec2) (k : nat) : vec2 :=
  match k with
  | O => Vec2 0 0
  | S k' => zNext c (orbit c k')
  end.

Definition bounded_upto (c : vec2) (m : nat) : Prop :=
  forall k, (1 <= k <= m)%nat -> dot (orbit c k) (orbit c k) <= 4.

Definition escapes_at (c : vec2) (n : nat) : Prop :=
  bounded_upto c n /\ dot (orbit c (S n)) (orbit c (S n)) > 4.

(** ** fragment.glsl *)

Module Fragment.

Record Uniforms : Type := {
  u_viewport_center : vec2;
  u_zoom : R;
  u_resolution : vec2;
  u_max_iterations : Z
}.

(** [main], first block: the point [c] of the fragment at [gl_FragCoord]. *)
Definition pixel (u : Uniforms) (gl_FragCoord : vec2) : vec2 :=
  let aspectRatio := vx (u_resolution u) / vy (u_resolution u) in
  let rangeY := 2 / u_zoom u in
  let rangeX := rangeY * aspectRatio in
  let uv := vdiv gl_FragCoord (u_resolution u) in
  vadd (u_viewport_center u)
       (Vec2 ((vx uv - 0.5) * rangeX) ((vy uv - 0.5) * rangeY)).

(** [for (i = 0.0; i < float(u_max_iterations); i++) { ... }] *)
Fixpoint for_loop (fuel : nat) (c : vec2) (max_iterations : Z)
         (i : R) (z : vec2) (n : nat) : option LoopResult :=
  if Rltb i (IZR max_iterations) then
    match fuel with
    | O => None
    | S fuel' =>
        let z' := zNext c z in
        if Rgtb (dot z' z') 4 then Some (Loop i z' (S n))
        else for_loop fuel' c max_iterations (i + 1) z' (S n)
    end
  else Some (Loop i z n).

Definition iterate (c : vec2) (max_iterations : Z) : option LoopResult :=
  for_loop (Z.to_nat max_iterations) c max_iterations 0 (Vec2 0 0) 0.

(** [if (i < float(u_max_iterations)) { ... i = i + 1.0 - nu; }] *)
Definition smoothing (max_iterations : Z) (l : LoopResult) : R :=
  if Rltb (count l) (IZR max_iterations) then smooth (count l) (zlast l)
  else count l.

(** The value [i] that [main] passes to [getColor]. *)
Definition evaluate (c : vec2) (max_iterations : Z) : option R :=
  option_map (smoothing max_iterations) (iterate c max_iterations).

Definition main (u : Uniforms) (gl_FragCoord : vec2) : option R :=
  evaluate (pixel u gl_FragCoord) (u_max_iterations u).

End Fragment.

(** ** webgl-renderer.ts

    Two revisions of the file are in the repository.  Their fragment
    shaders differ in the names of the locals only ([i]/[iterations] against
    [iterCount]/[maxIter]); their [pan], [updateViewport], [updateZoom],
    [resetView] and [getViewport] are the same text.  The later revision adds
    the dynamic resolution of [resizeCanvasToDisplaySize]. *)

Module WebGL.

(** *** The inlined fragment shader *)

Definition LOOP_BOUND : Z := 1000.

(** [for (int iter = 0; iter < 1000; iter++) {
       if (float(iter) >= float(maxIter)) break;
       ... z = zSquared + c;
       if (dot(z, z) > 4.0) { iterCount = float(iter); break; }
       iterCount = float(iter);
     }] *)
Fixpoint for_loop (fuel : nat) (c : vec2) (maxIter : Z)
         (iter : Z) (z : vec2) (iterCount : R) (n : nat)
  : option LoopResult :=
  if (iter <? LOOP_BOUND)%Z then
    match fuel with
    | O => None
    | S fuel' =>
        if Rgeb (IZR iter) (IZR maxIter) then Some (Loop iterCount z n)
        else
          let z' := zNext c z in
          if Rgtb (dot z' z') 4 then Some (Loop (IZR iter) z' (S n))
          else for_loop fuel' c maxIter (iter + 1) z' (IZR iter) (S n)
    end
  else Some (Loop iterCount z n).

Definition iterate (c : vec2) (maxIter : Z) : option LoopResult :=
  for_loop (Z.to_nat LOOP_BOUND) c maxIter 0 (Vec2 0 0) 0 0.

(** [if (iterCount < float(maxIter)) { ... iterCount = iterCount + 1.0 - smoothingTerm; }] *)
Definition smoothing (maxIter : Z) (l : LoopResult) : R :=
  if Rltb (count l) (IZR maxIter) then smooth (count l) (zlast l)
  else count l.

(** The value [iterCount] that [main] passes to [getColor]. *)
Definition evaluate (c : vec2) (maxIter : Z) : option R :=
  option_map (smoothing maxIter) (iterate c maxIter).

(** [main], step 1: the point [c] of the fragment at [gl_FragCoord]. *)
Definition pixel (u_viewport_center : vec2) (u_zoom : R)
           (u_resolution gl_FragCoord : vec2) : vec2 :=
  let aspectRatio := vx u_resolution / vy u_resolution in
  let complexPlaneHeight := 2 / u_zoom in
  let complexPlaneWidth := complexPlaneHeight * aspectRatio in
  let uv := vdiv gl_FragCoord u_resolution in
  vadd u_viewport_center
       (Vec2 ((vx uv - 0.5) * complexPlaneWidth)
             ((vy uv - 0.5) * complexPlaneHeight)).

(** *** The renderer *)

Inductive ColorScheme : Type := Rainbow | Grayscale | Fire.

Record WebGLMandelbrotConfig : Type := {
  maxIterations : Z;
  colorScheme : ColorScheme
}.

(** The attributes of the canvas element that the code reads or writes. *)
Record Canvas : Type := {
  width : Z;
  height : Z;
  clientWidth : Z;
  clientHeight : Z
}.

Record Renderer : Type := {
  canvas : Canvas;
  config : WebGLMandelbrotConfig;
  viewportX : R;
  viewportY : R;
  zoom : R
}.

Record Viewport : Type := { x : R; y : R; vzoom : R }.

(** The two revisions of the file. *)
Inductive Revision : Type := FixedResolution | DynamicResolution.

(** Private fields of the later revision, initialised once and never
    assigned again. *)
Definition baseResolutionFactor : R := 1.
Definition maxResolutionFactor : R := 2.
Definition zoomThreshold : R := 100.

Definition calculateResolutionFactor (r : Renderer) : R :=
  if Rleb (zoom r) zoomThreshold then baseResolutionFactor
  else
    let zoomRatio := Rmin (zoom r / zoomThreshold) maxResolutionFactor in
    Rmin (baseResolutionFactor * zoomRatio) maxResolutionFactor.

Definition setCanvasSize (r : Renderer) (w h : Z) : Renderer :=
  {| canvas := {| width := w; height := h;
                  clientWidth := clientWidth (canvas r);
                  clientHeight := clientHeight (canvas r) |};
     config := config r;
     viewportX := viewportX r; viewportY := viewportY r; zoom := zoom r |}.

Definition resizeCanvasToDisplaySize (rev : Revision) (r : Renderer)
  : Renderer :=
  let displayWidth := clientWidth (canvas r) in
  let displayHeight := clientHeight (canvas r) in
  match rev with
  | FixedResolution =>
      if negb (width (canvas r) =? displayWidth)%Z
         || negb (height (canvas r) =? displayHeight)%Z
      then setCanvasSize r displayWidth displayHeight
      else r
  | DynamicResolution =>
      let resolutionFactor := calculateResolutionFactor r in
      let targetWidth := Zfloor (IZR displayWidth * resolutionFactor) in
      let targetHeight := Zfloor (IZR displayHeight * resolutionFactor) in
      if negb (width (canvas r) =? targetWidth)%Z
         || negb (height (canvas r) =? targetHeight)%Z
      then setCanvasSize r targetWidth targetHeight
      else r
  end.

(** [render]: the state it leaves behind.  The draw call evaluates the
    shader at every fragment and changes no field of the renderer. *)
Definition render (rev : Revision) (r : Renderer) : Renderer :=
  resizeCanvasToDisplaySize rev r.

Definition setViewport (r : Renderer) (vX vY z : R) : Renderer :=
  {| canvas := canvas r; config := config r;
     viewportX := vX; viewportY := vY; zoom := z |}.

Definition updateViewport (rev : Revision) (nx ny : R) (r : Renderer)
  : Renderer :=
  render rev (setViewport r nx ny (zoom r)).

Definition updateZoom (rev : Revision) (z : R) (r : Renderer) : Renderer :=
  render rev (setViewport r (viewportX r) (viewportY r) z).

Definition pan (rev : Revision) (deltaX deltaY : R) (r : Renderer)
  : Renderer :=
  let aspectRatio := IZR (width (canvas r)) / IZR (height (canvas r)) in
  let fractalWidth := 3 / zoom r * aspectRatio in
  let fractalHeight := 3 / zoom r in
  let fractalDeltaX := deltaX * fractalWidth / IZR (width (canvas r)) in
  let fractalDeltaY := deltaY * fractalHeight / IZR (height (canvas r)) in
  render rev (setViewport r (viewportX r - fractalDeltaX)
                            (viewportY r + fractalDeltaY) (zoom r)).

Definition resetView (rev : Revision) (r : Renderer) : Renderer :=
  render rev (setViewport r (-0.5) 0 1).

Definition getViewport (r : Renderer) : Viewport :=
  {| x := viewportX r; y := viewportY r; vzoom := zoom r |}.

(** What the shader of a rendered frame receives as uniforms. *)
Definition framePixel (r : Renderer) (gl_FragCoord : vec2) : vec2 :=
  pixel (Vec2 (viewportX r) (viewportY r)) (zoom r)
        (Vec2 (IZR (width (canvas r))) (IZR (height (canvas r))))
        gl_FragCoord.

End WebGL.

(** ** index.ts, Canvas-2D revision: the pixel loop *)

Module Canvas2D.

(** [while (x*x + y*y <= 4 && iteration < maxIter) { ... iteration++; }] *)
Fixpoint while_loop (fuel : nat) (x0 y0 : R) (maxIter : Z)
         (x y : R) (iteration : Z) (n : nat) : option (Z * vec2 * nat) :=
  if Rleb (x * x + y * y) 4 && (iteration <? maxIter)%Z then
    match fuel with
    | O => None
    | S fuel' =>
        let xTemp := x * x - y * y + x0 in
        let y' := 2 * x * y + y0 in
        while_loop fuel' x0 y0 maxIter xTemp y' (iteration + 1) (S n)
    end
  else Some (iteration, Vec2 x y, n).

Definition run (maxIterations : Z) (x0 y0 : R) : option (Z * vec2 * nat) :=
  while_loop (Z.to_nat maxIterations) x0 y0 maxIterations 0 0 0 0.

Definition calculateMandelbrot (maxIterations : Z) (x0 y0 : R) : option Z :=
  option_map (fun r => fst (fst r)) (run maxIterations x0 y0).

(** [render]: the point [(cx, cy)] of the pixel in column [x], row [y]. *)
Definition pixel (viewportX viewportY zoom : R) (width height : Z)
           (x y : Z) : vec2 :=
  let aspectRatio := IZR width / IZR height in
  let rangeY := 2 / zoom in
  let rangeX := rangeY * aspectRatio in
  let minX := viewportX - rangeX / 2 in
  let maxX := viewportX + rangeX / 2 in
  let minY := viewportY - rangeY / 2 in
  let maxY := viewportY + rangeY / 2 in
  let stepX := (maxX - minX) / IZR width in
  let stepY := (maxY - minY) / IZR height in
  Vec2 (minX + IZR x * stepX) (minY + IZR y * stepY).

End Canvas2D.

(** ** index.ts on the WebGL renderer

    The class [MandelbrotSet] of the two later revisions of [index.ts].
    The DOM rectangle that visualises a selection carries no number the
    viewport depends on and is left out. *)

Module Index.

Import WebGL.

Inductive InteractionMode : Type := Pan | Select.

Definition isSelect (m : InteractionMode) : bool :=
  match m with Select => true | Pan => false end.

Record Point : Type := { px : R; py : R }.

Record MandelbrotSet : Type := {
  renderer : Renderer;
  isDragging : bool;
  lastX : R;
  lastY : R;
  interactionMode : InteractionMode;
  selectionStart : option Point
}.

(** The fields of a mouse or wheel event that the handlers read. *)
Record MouseEvent : Type := {
  offsetX : R;
  offsetY : R;
  clientX : R;
  clientY : R;
  deltaY : R
}.

(** The result of [canvas.getBoundingClientRect()]. *)
Record DOMRect : Type := { left : R; top : R; rectWidth : R; rectHeight : R }.

Definition withRenderer (s : MandelbrotSet) (r : Renderer) : MandelbrotSet :=
  {| renderer := r; isDragging := isDragging s;
     lastX := lastX s; lastY := lastY s;
     interactionMode := interactionMode s;
     selectionStart := selectionStart s |}.

Definition withDragging (s : MandelbrotSet) (b : bool) : MandelbrotSet :=
  {| renderer := renderer s; isDragging := b;
     lastX := lastX s; lastY := lastY s;
     interactionMode := interactionMode s;
     selectionStart := selectionStart s |}.

Definition withLast (s : MandelbrotSet) (lx ly : R) : MandelbrotSet :=
  {| renderer := renderer s; isDragging := isDragging s;
     lastX := lx; lastY := ly;
     interactionMode := interactionMode s;
     selectionStart := selectionStart s |}.

Definition withSelectionStart (s : MandelbrotSet) (p : option Point)
  : MandelbrotSet :=
  {| renderer := renderer s; isDragging := isDragging s;
     lastX := lastX s; lastY := lastY s;
     interactionMode := interactionMode s;
     selectionStart := p |}.

Section Handlers.

(** The revision of [webgl-renderer.ts] the page is built with. *)
Variable rev : Revision.

Definition zoomToSelection (startX startY endX endY : R)
           (s : MandelbrotSet) : MandelbrotSet :=
  let centerX := (startX + endX) / 2 in
  let centerY := (startY + endY) / 2 in
  let currentViewport := getViewport (renderer s) in
  let cw := IZR (width (canvas (renderer s))) in
  let ch := IZR (height (canvas (renderer s))) in
  let aspectRatio := cw / ch in
  let rangeY := 2 / vzoom currentViewport in
  let rangeX := rangeY * aspectRatio in
  let minX := x currentViewport - rangeX / 2 in
  let minY := y currentViewport - rangeY / 2 in
  let stepX := rangeX / cw in
  let stepY := rangeY / ch in
  let fractalCenterX := minX + centerX * stepX in
  let fractalCenterY := minY + centerY * stepY in
  let selectionWidth := Rabs (endX - startX) in
  let selectionHeight := Rabs (endY - startY) in
  let zoomFactorX := cw / selectionWidth in
  let zoomFactorY := ch / selectionHeight in
  let zoomFactor := Rmin zoomFactorX zoomFactorY in
  let r1 := updateViewport rev fractalCenterX fractalCenterY (renderer s) in
  let r2 := updateZoom rev (vzoom currentViewport * zoomFactor) r1 in
  withRenderer s r2.

(** [canvas.addEventListener('mousedown', ...)] *)
Definition mousedown (e : MouseEvent) (s : MandelbrotSet) : MandelbrotSet :=
  let s1 := withLast (withDragging s true) (offsetX e) (offsetY e) in
  if isSelect (interactionMode s1)
  then withSelectionStart s1 (Some {| px := offsetX e; py := offsetY e |})
  else s1.

(** [canvas.addEventListener('mousemove', ...)] *)
Definition mousemove (e : MouseEvent) (s : MandelbrotSet) : MandelbrotSet :=
  if isDragging s then
    match interactionMode s with
    | Pan =>
        let deltaX := offsetX e - lastX s in
        let deltaY := offsetY e - lastY s in
        withLast (withRenderer s (pan rev deltaX deltaY (renderer s)))
                 (offsetX e) (offsetY e)
    | Select => s
    end
  else s.

(** [canvas.addEventListener('mouseup', ...)] *)
Definition mouseup (e : MouseEvent) (s : MandelbrotSet) : MandelbrotSet :=
  let s1 :=
    match selectionStart s with
    | Some start =>
        if isDragging s && isSelect (interactionMode s) then
          let width := Rabs (offsetX e - px start) in
          let height := Rabs (offsetY e - py start) in
          let s' :=
            if Rgtb width 10 && Rgtb height 10
            then zoomToSelection (px start) (py start)
                                 (offsetX e) (offsetY e) s
            else s in
          withSelectionStart s' None
        else s
    | None => s
    end in
  withDragging s1 false.

(** [window.addEventListener('mouseup', ...)] *)
Definition windowMouseup (s : MandelbrotSet) : MandelbrotSet :=
  let s1 := withDragging s false in
  if isSelect (interactionMode s1) then withSelectionStart s1 None else s1.

(** [canvas.addEventListener('wheel', ...)] of [src/index.ts]. *)
Definition wheel (rect : DOMRect) (e : MouseEvent) (s : MandelbrotSet)
  : MandelbrotSet :=
  let x := clientX e - left rect in
  let y := clientY e - top rect in
  let viewport := getViewport (renderer s) in
  let ndcX := (x / IZR (width (canvas (renderer s)))) * 2 - 1 in
  let ndcY := (y / IZR (height (canvas (renderer s)))) * -2 + 1 in
  let fractalX := WebGL.x viewport + ndcX * (2 / vzoom viewport) in
  let fractalY := WebGL.y viewport + ndcY * (2 / vzoom viewport) in
  let zoomFactor := if Rgtb (deltaY e) 0 then 0.8 else 1.2 in
  let newZoom := vzoom viewport * zoomFactor in
  let newViewportX := fractalX - ndcX * (2 / newZoom) in
  let newViewportY := fractalY - ndcY * (2 / newZoom) in
  let r1 := updateViewport rev newViewportX newViewportY (renderer s) in
  withRenderer s (updateZoom rev newZoom r1).

Definition resetView (s : MandelbrotSet) : MandelbrotSet :=
  withRenderer s (WebGL.resetView rev (renderer s)).

End Handlers.

End Index.

(** ** index.ts with the coordinate tooltip

    The latest revision keeps the class of [Index] but for the wheel
    listener, and adds the tooltip's [screenToComplex]. *)

Module IndexTooltip.

Import WebGL.
Import Index.

(** [canvas.addEventListener('wheel', ...)] *)
Definition wheel (rev : Revision) (rect : DOMRect) (e : MouseEvent)
           (s : MandelbrotSet) : MandelbrotSet :=
  let relativeX := (clientX e - left rect) / rectWidth rect in
  let relativeY := (clientY e - top rect) / rectHeight rect in
  let viewport := getViewport (renderer s) in
  let aspectRatio := IZR (clientWidth (canvas (renderer s)))
                     / IZR (clientHeight (canvas (renderer s))) in
  let rangeY := 2 / vzoom viewport in
  let rangeX := rangeY * aspectRatio in
  let fractalX := x viewport + (relativeX - 0.5) * rangeX in
  let fractalY := y viewport + (0.5 - relativeY) * rangeY in
  let zoomFactor := if Rgtb (deltaY e) 0 then 0.8 else 1.2 in
  let newZoom := vzoom viewport * zoomFactor in
  let newRangeY := 2 / newZoom in
  let newRangeX := newRangeY * aspectRatio in
  let newViewportX := fractalX - (relativeX - 0.5) * newRangeX in
  let newViewportY := fractalY - (0.5 - relativeY) * newRangeY in
  let r1 := updateViewport rev newViewportX newViewportY (renderer s) in
  withRenderer s (updateZoom rev newZoom r1).

(** [function screenToComplex(x, y)], the tooltip's conversion. *)
Definition screenToComplex (s : MandelbrotSet) (sx sy : R) : vec2 :=
  let canvasWidth := IZR (width (canvas (renderer s))) in
  let canvasHeight := IZR (height (canvas (renderer s))) in
  let viewport := getViewport (renderer s) in
  let aspectRatio := canvasWidth / canvasHeight in
  let rangeY := 2 / vzoom viewport in
  let rangeX := rangeY * aspectRatio in
  let minReal := x viewport - (rangeX / 2) in
  let maxReal := x viewport + (rangeX / 2) in
  let minImag := y viewport - (rangeY / 2) in
  let maxImag := y viewport + (rangeY / 2) in
  let normalizedX := sx / canvasWidth in
  let normalizedY := sy / canvasHeight in
  let real := minReal + normalizedX * (maxReal - minReal) in
  let imag := minImag + normalizedY * (maxImag - minImag) in
  Vec2 real imag.

End IndexTooltip.

(** ** The coordinate mapper of the specification

    Section 4.1 of the specification, in its words; the conversions of the
    code are compared with it below. *)

Module Spec.

Definition screenToComplex (centerX centerY zoom width height px py : R)
  : vec2 :=
  let aspectRatio := width / height in
  let rangeY := 2 / zoom in
  let rangeX := rangeY * aspectRatio in
  Vec2 (centerX + (px / width - 0.5) * rangeX)
       (centerY + (0.5 - py / height) * rangeY).

End Spec.

(** ** Screen positions and the frame

    WebGL's window coordinates have their origin at the lower left corner,
    the DOM's at the upper left: on a raster of height [h] shown at its
    native size the fragment under the screen position [(sx, sy)] has
    [gl_FragCoord = (sx, h - sy)]. *)

Definition fragmentAt (r : WebGL.Renderer) (sx sy : R) : vec2 :=
  Vec2 sx (IZR (WebGL.height (WebGL.canvas r)) - sy).

(** The point that a rendered frame shows at a screen position. *)
Definition shownAt (r : WebGL.Renderer) (sx sy : R) : vec2 :=
  WebGL.framePixel r (fragmentAt r sx sy).

(** ** The states and events of the examples *)

(** The renderer of the examples: the default view on a canvas of 800 by
    600 pixels shown at its native size. *)
Definition canvas800 : WebGL.Canvas :=
  {| WebGL.width := 800; WebGL.height := 600;
     WebGL.clientWidth := 800; WebGL.clientHeight := 600 |}.

Definition defaultView (z : R) : WebGL.Renderer :=
  {| WebGL.canvas := canvas800;
     WebGL.config := {| WebGL.maxIterations := 100;
                        WebGL.colorScheme := WebGL.Rainbow |};
     WebGL.viewportX := -0.5; WebGL.viewportY := 0; WebGL.zoom := z |}.

Definition selecting (start : Index.Point) (r : WebGL.Renderer)
  : Index.MandelbrotSet :=
  {| Index.renderer := r; Index.isDragging := true;
     Index.lastX := Index.px start; Index.lastY := Index.py start;
     Index.interactionMode := Index.Select;
     Index.selectionStart := Some start |}.

Definition idle (r : WebGL.Renderer) : Index.MandelbrotSet :=
  {| Index.renderer := r; Index.isDragging := false;
     Index.lastX := 0; Index.lastY := 0;
     Index.interactionMode := Index.Pan;
     Index.selectionStart := None |}.

(** An event at the canvas position [(ex, ey)] of a canvas whose bounding
    rectangle starts at the origin of the client area. *)
Definition pointerAt (ex ey dy : R) : Index.MouseEvent :=
  {| Index.offsetX := ex; Index.offsetY := ey;
     Index.clientX := ex; Index.clientY := ey; Index.deltaY := dy |}.

Definition rect800 : Index.DOMRect :=
  {| Index.left := 0; Index.top := 0;
     Index.rectWidth := 800; Index.rectHeight := 600 |}.

(** ** The colour functions of the shaders

    [hsl2rgb] and [getColor] are the same text in [fragment.glsl] and in
    the two inlined shaders.  [mod] is GLSL's, [x - y * floor(x / y)]. *)

Module Shading.

Record vec3 : Type := Vec3 { red : R; green : R; blue : R }.

Record vec4 : Type := Vec4 { c_r : R; c_g : R; c_b : R; c_a : R }.

Definition vec4_of (v : vec3) (a : R) : vec4 :=
  Vec4 (red v) (green v) (blue v) a.

Definition vadd3 (a b : vec3) : vec3 :=
  Vec3 (red a + red b) (green a + green b) (blue a + blue b).

Definition mod_ (a b : R) : R := a - b * IZR (Zfloor (a / b)).

Definition hsl2rgb (h s l : R) : vec3 :=
  let c := (1 - Rabs (2 * l - 1)) * s in
  let x := c * (1 - Rabs (mod_ (h / 60) 2 - 1)) in
  let m := l - c / 2 in
  let rgb :=
    if Rltb h 60 then Vec3 c x 0
    else if Rltb h 120 then Vec3 x c 0
    else if Rltb h 180 then Vec3 0 c x
    else if Rltb h 240 then Vec3 0 x c
    else if Rltb h 300 then Vec3 x 0 c
    else Vec3 c 0 x in
  vadd3 rgb (Vec3 m m m).

Definition getColor (u_color_scheme : Z) (iteration : R) (maxIterations : Z)
  : vec4 :=
  if Rgeb iteration (IZR maxIterations) then Vec4 0 0 0 1
  else
    let normalized := iteration / IZR maxIterations in
    if (u_color_scheme =? 1)%Z then
      vec4_of (Vec3 normalized normalized normalized) 1
    else if (u_color_scheme =? 2)%Z then
      let red := Rmin 1 (normalized * 2) in
      let green := Rmin 1 (normalized * 0.6) in
      let blue := normalized * 0.15 in
      Vec4 red green blue 1
    else
      let hue := 360 * normalized in
      vec4_of (hsl2rgb hue 1 0.5) 1.

(** [gl_FragColor = getColor(i, u_max_iterations);] of [fragment.glsl]. *)
Definition fragmentColor (u_color_scheme : Z) (c : vec2) (max_iterations : Z)
  : option vec4 :=
  option_map (fun i => getColor u_color_scheme i max_iterations)
             (Fragment.evaluate c max_iterations).

(** [gl_FragColor = getColor(iterCount, maxIter);] of the inlined shader. *)
Definition inlinedColor (u_color_scheme : Z) (c : vec2) (maxIter : Z)
  : option vec4 :=
  option_map (fun i => getColor u_color_scheme i maxIter)
             (WebGL.evaluate c maxIter).

End Shading.

(** ** index.ts, Canvas-2D revision: the viewport

    The class [MandelbrotSet] of the first [index.ts] keeps the viewport
    itself.  Its [render] fills an image and changes no field. *)

Module Canvas2DView.

Import Index.

Record MandelbrotSet : Type := {
  width : Z;
  height : Z;
  maxIterations : Z;
  viewportX : R;
  viewportY : R;
  zoom : R;
  isDragging : bool;
  lastX : R;
  lastY : R;
  interactionMode : InteractionMode;
  selectionStart : option Point
}.

Definition withView (s : MandelbrotSet) (vX vY z : R) : MandelbrotSet :=
  {| width := width s; height := height s; maxIterations := maxIterations s;
     viewportX := vX; viewportY := vY; zoom := z;
     isDragging := isDragging s; lastX := lastX s; lastY := lastY s;
     interactionMode := interactionMode s;
     selectionStart := selectionStart s |}.

Definition withDrag (s : MandelbrotSet) (d : bool) (lx ly : R)
           (sel : option Point) : MandelbrotSet :=
  {| width := width s; height := height s; maxIterations := maxIterations s;
     viewportX := viewportX s; viewportY := viewportY s; zoom := zoom s;
     isDragging := d; lastX := lx; lastY := ly;
     interactionMode := interactionMode s;
     selectionStart := sel |}.

(** [render]: the point of the pixel in column [x], row [y], and the
    iteration count computed for it. *)
Definition renderedPoint (s : MandelbrotSet) (x y : Z) : vec2 :=
  Canvas2D.pixel (viewportX s) (viewportY s) (zoom s) (width s) (height s)
                 x y.

Definition renderedCount (s : MandelbrotSet) (x y : Z) : option Z :=
  let c := renderedPoint s x y in
  Canvas2D.calculateMandelbrot (maxIterations s) (vx c) (vy c).

Definition zoomToSelection (startX startY endX endY : R) (s : MandelbrotSet)
  : MandelbrotSet :=
  let centerX := (startX + endX) / 2 in
  let centerY := (startY + endY) / 2 in
  let aspectRatio := IZR (width s) / IZR (height s) in
  let rangeY := 2 / zoom s in
  let rangeX := rangeY * aspectRatio in
  let minX := viewportX s - rangeX / 2 in
  let minY := viewportY s - rangeY / 2 in
  let stepX := rangeX / IZR (width s) in
  let stepY := rangeY / IZR (height s) in
  let fractalCenterX := minX + centerX * stepX in
  let fractalCenterY := minY + centerY * stepY in
  let selectionWidth := Rabs (endX - startX) in
  let selectionHeight := Rabs (endY - startY) in
  let zoomFactorX := IZR (width s) / selectionWidth in
  let zoomFactorY := IZR (height s) / selectionHeight in
  let zoomFactor := Rmin zoomFactorX zoomFactorY in
  withView s fractalCenterX fractalCenterY (zoom s * zoomFactor).

(** [canvas.addEventListener('mousedown', ...)] *)
Definition mousedown (e : MouseEvent) (s : MandelbrotSet) : MandelbrotSet :=
  if isSelect (interactionMode s)
  then withDrag s true (offsetX e) (offsetY e)
                (Some {| px := offsetX e; py := offsetY e |})
  else withDrag s true (offsetX e) (offsetY e) (selectionStart s).

(** [canvas.addEventListener('mousemove', ...)] *)
Definition mousemove (e : MouseEvent) (s : MandelbrotSet) : MandelbrotSet :=
  if isDragging s then
    match interactionMode s with
    | Pan =>
        let deltaX := offsetX e - lastX s in
        let deltaY := offsetY e - lastY s in
        let fractalDeltaX := deltaX * (3 / IZR (width s)) / zoom s in
        let fractalDeltaY := deltaY * (3 / IZR (height s)) / zoom s in
        withDrag (withView s (viewportX s - fractalDeltaX)
                             (viewportY s - fractalDeltaY) (zoom s))
                 (isDragging s) (offsetX e) (offsetY e) (selectionStart s)
    | Select => s
    end
  else s.

(** [canvas.addEventListener('mouseup', ...)] *)
Definition mouseup (e : MouseEvent) (s : MandelbrotSet) : MandelbrotSet :=
  let s1 :=
    match selectionStart s with
    | Some start =>
        if isDragging s && isSelect (interactionMode s) then
          let w := Rabs (offsetX e - px start) in
          let h := Rabs (offsetY e - py start) in
          let s' :=
            if Rgtb w 10 && Rgtb h 10
            then zoomToSelection (px start) (py start)
                                 (offsetX e) (offsetY e) s
            else s in
          withDrag s' (isDragging s') (lastX s') (lastY s') None
        else s
    | None => s
    end in
  withDrag s1 false (lastX s1) (lastY s1) (selectionStart s1).

(** [canvas.addEventListener('wheel', ...)] *)
Definition wheel (rect : DOMRect) (e : MouseEvent) (s : MandelbrotSet)
  : MandelbrotSet :=
  let x := clientX e - left rect in
  let y := clientY e - top rect in
  let ndcX := (x / IZR (width s)) * 2 - 1 in
  let ndcY := (y / IZR (height s)) * -2 + 1 in
  let fractalX := viewportX s + ndcX * (2 / zoom s) in
  let fractalY := viewportY s + ndcY * (2 / zoom s) in
  let zoomFactor := if Rgtb (deltaY e) 0 then 0.8 else 1.2 in
  let zoom' := zoom s * zoomFactor in
  withView s (fractalX - ndcX * (2 / zoom')) (fractalY - ndcY * (2 / zoom'))
           zoom'.

Definition resetView (s : MandelbrotSet) : MandelbrotSet :=
  withView s (-0.5) 0 1.

End Canvas2DView.

(** ** index.ts with the coordinate tooltip: the number of decimals

    [formatCoordinate] prints with
    [Math.max(4, Math.min(15, Math.floor(Math.log10(viewport.zoom)) + 2))]
    decimals. *)

Module TooltipFormat.

Definition log10 (v : R) : R := ln v / ln 10.

Definition decimals (zoom : R) : Z :=
  Z.max 4 (Z.min 15 (Zfloor (log10 zoom) + 2)).

End TooltipFormat.

(** ** The listeners of the page as one step function

    The events that reach the class of the WebGL-based [index.ts].  A
    [mouseup] on the canvas bubbles to the listener on [window], which runs
    after the canvas's own. *)

Module Page.

Import WebGL.
Import Index.

Inductive WheelRevision : Type := NdcWheel | RelativeWheel.

Inductive Event : Type :=
| MouseDown (e : MouseEvent)
| MouseMove (e : MouseEvent)
| MouseUpOnCanvas (e : MouseEvent)
| MouseUpElsewhere
| WheelOnCanvas (rect : DOMRect) (e : MouseEvent)
| CheckPanMode
| CheckSelectMode
| ClickReset.

(** [panModeRadio] and [selectModeRadio], on [change] with the radio
    checked. *)
Definition setMode (m : InteractionMode) (s : MandelbrotSet) : MandelbrotSet :=
  {| renderer := renderer s; isDragging := isDragging s;
     lastX := lastX s; lastY := lastY s;
     interactionMode := m;
     selectionStart := selectionStart s |}.

Definition dispatch (rev : Revision) (wrev : WheelRevision) (ev : Event)
           (s : MandelbrotSet) : MandelbrotSet :=
  match ev with
  | MouseDown e => mousedown e s
  | MouseMove e => mousemove rev e s
  | MouseUpOnCanvas e => windowMouseup (mouseup rev e s)
  | MouseUpElsewhere => windowMouseup s
  | WheelOnCanvas rect e =>
      match wrev with
      | NdcWheel => Index.wheel rev rect e s
      | RelativeWheel => IndexTooltip.wheel rev rect e s
      end
  | CheckPanMode => setMode Pan s
  | CheckSelectMode => setMode Select s
  | ClickReset => Index.resetView rev s
  end.

Definition run (rev : Revision) (wrev : WheelRevision) (evs : list Event)
           (s : MandelbrotSet) : MandelbrotSet :=
  List.fold_left (fun st ev => dispatch rev wrev ev st) evs s.

(** The invariant of the viewport: a positive zoom, on a canvas whose
    display size and raster are not empty. *)
Definition positiveView (s : MandelbrotSet) : Prop :=
  0 < zoom (renderer s)
  /\ (0 < clientWidth (canvas (renderer s)))%Z
  /\ (0 < clientHeight (canvas (renderer s)))%Z
  /\ (0 < width (canvas (renderer s)))%Z
  /\ (0 < height (canvas (renderer s)))%Z.

End Page.

(** * Properties *)

(** ** Comparisons *)

Lemma Rltb_true_iff (a b : R) : Rltb a b = true <-> a < b.
Proof.
  unfold Rltb. destruct (Rlt_dec a b); split; intros; try easy.
Qed.

Lemma Rltb_false_iff (a b : R) : Rltb a b = false <-> b <= a.
Proof.
  unfold Rltb. destruct (Rlt_dec a b); split; intros; try easy; lra.
Qed.

Lemma Rleb_true_iff (a b : R) : Rleb a b = true <-> a <= b.
Proof.
  unfold Rleb. destruct (Rle_dec a b); split; intros; try easy.
Qed.

Lemma Rleb_false_iff (a b : R) : Rleb a b = false <-> b < a.
Proof.
  unfold Rleb. destruct (Rle_dec a b); split; intros; try easy; lra.
Qed.

Lemma Rgtb_true_iff (a b : R) : Rgtb a b = true <-> a > b.
Proof. unfold Rgtb. rewrite Rltb_true_iff. lra. Qed.

Lemma Rgtb_false_iff (a b : R) : Rgtb a b = false <-> a <= b.
Proof. unfold Rgtb. apply Rltb_false_iff. Qed.

Lemma Rgeb_true_iff (a b : R) : Rgeb a b = true <-> a >= b.
Proof. unfold Rgeb. rewrite Rleb_true_iff. lra. Qed.

Lemma Rgeb_false_iff (a b : R) : Rgeb a b = false <-> a < b.
Proof. unfold Rgeb. apply Rleb_false_iff. Qed.

(** [field_but z] proves an equation of the field of real numbers in which
    [z] may be zero: [/ z] is taken as an unknown.  Decimal literals are
    unfolded to fractions first. *)
Ltac field_but z :=
  unfold Q2R; cbn [QArith_base.Qnum QArith_base.Qden];
  unfold Rdiv; generalize (/ z); intro; field.

Lemma IZR_succ_nat (k : nat) : IZR (Z.of_nat (S k)) = IZR (Z.of_nat k) + 1.
Proof. rewrite Nat2Z.inj_succ, succ_IZR. reflexivity. Qed.

Lemma IZR_to_nat_le (m : Z) : IZR m <= INR (Z.to_nat m).
Proof.
  rewrite INR_IZR_INZ. apply IZR_le. lia.
Qed.

(** ** The logarithms of the smoothing block *)

Lemma ln_2_pos : 0 < ln 2.
Proof. rewrite <- ln_1. apply ln_increasing; lra. Qed.

(** At an escape the arguments of both logarithms are positive, and the
    second is greater than 1. *)
Lemma log_zn_escaped (z : vec2) : dot z z > 4 -> log_zn z / ln 2 > 1.
Proof.
  intros H. unfold log_zn.
  assert (H2 := ln_2_pos).
  assert (H4 : ln 4 = 2 * ln 2).
  { replace 4 with (2 * 2) by lra. rewrite ln_mult by lra. lra. }
  assert (Hd : ln 4 < ln (dot z z)) by (apply ln_increasing; lra).
  apply Rmult_lt_reg_r with (ln 2); [exact H2|].
  unfold Rdiv. rewrite Rmult_assoc, Rinv_l by lra. lra.
Qed.

Lemma nu_escaped_pos (z : vec2) : dot z z > 4 -> 0 < nu z.
Proof.
  intros H. unfold nu.
  assert (H2 := ln_2_pos).
  assert (H1 := log_zn_escaped z H).
  apply Rdiv_lt_0_compat; [|exact H2].
  rewrite <- ln_1. apply ln_increasing; lra.
Qed.

(** ** fragment.glsl: the loop *)

Lemma Fragment_for_loop_total (fuel : nat) (c : vec2) (m : Z) :
  forall (i : R) (z : vec2) (n : nat),
    IZR m <= i + INR fuel ->
    exists r, Fragment.for_loop fuel c m i z n = Some r.
Proof.
  induction fuel as [|fuel IH]; intros i z n Hfuel.
  - simpl in *. rewrite (proj2 (Rltb_false_iff i (IZR m))) by lra. eauto.
  - cbn [Fragment.for_loop].
    destruct (Rltb i (IZR m)); [|eauto].
    destruct (Rgtb _ 4); [eauto|].
    apply IH. rewrite S_INR in Hfuel. lra.
Qed.

Lemma Fragment_iterate_total (c : vec2) (m : Z) :
  exists r, Fragment.iterate c m = Some r.
Proof.
  apply Fragment_for_loop_total.
  generalize (IZR_to_nat_le m). lra.
Qed.

(** A run over [d] steps that stay within the radius ends at the cap. *)
Lemma Fragment_for_loop_bounded (c : vec2) (m : Z) :
  forall (d k n fuel : nat),
    (Z.of_nat k + Z.of_nat d = m)%Z ->
    (forall j, (k < j <= k + d)%nat -> dot (orbit c j) (orbit c j) <= 4) ->
    (d <= fuel)%nat ->
    Fragment.for_loop fuel c m (IZR (Z.of_nat k)) (orbit c k) n
    = Some (Loop (IZR m) (orbit c (k + d)) (n + d)).
Proof.
  induction d as [|d IH]; intros k n fuel Hm Hb Hfuel.
  - assert (Hk : Z.of_nat k = m) by lia.
    rewrite !Nat.add_0_r, Hk.
    destruct fuel; cbn [Fragment.for_loop];
      rewrite (proj2 (Rltb_false_iff (IZR m) (IZR m))) by lra; reflexivity.
  - destruct fuel as [|fuel]; [lia|].
    cbn [Fragment.for_loop].
    rewrite (proj2 (Rltb_true_iff _ _)) by (apply IZR_lt; lia).
    change (zNext c (orbit c k)) with (orbit c (S k)).
    rewrite (proj2 (Rgtb_false_iff _ _)) by (apply Hb; lia).
    rewrite <- IZR_succ_nat.
    rewrite (IH (S k) (S n) fuel); try lia.
    + replace (S k + d)%nat with (k + S d)%nat by lia.
      replace (S n + d)%nat with (n + S d)%nat by lia. reflexivity.
    + intros j Hj. apply Hb. lia.
Qed.

(** A run whose step of index [k + d] is the first to leave the radius
    stops there, with the loop counter at [k + d]. *)
Lemma Fragment_for_loop_escape (c : vec2) (m : Z) :
  forall (d k n fuel : nat),
    (Z.of_nat (k + d) < m)%Z ->
    (forall j, (k < j <= k + d)%nat -> dot (orbit c j) (orbit c j) <= 4) ->
    dot (orbit c (S (k + d))) (orbit c (S (k + d))) > 4 ->
    (d < fuel)%nat ->
    Fragment.for_loop fuel c m (IZR (Z.of_nat k)) (orbit c k) n
    = Some (Loop (IZR (Z.of_nat (k + d))) (orbit c (S (k + d))) (S (n + d))).
Proof.
  induction d as [|d IH]; intros k n fuel Hm Hb He Hfuel;
    (destruct fuel as [|fuel]; [lia|]);
    cbn [Fragment.for_loop];
    rewrite (proj2 (Rltb_true_iff _ _)) by (apply IZR_lt; lia);
    change (zNext c (orbit c k)) with (orbit c (S k)).
  - rewrite !Nat.add_0_r in *.
    rewrite (proj2 (Rgtb_true_iff _ _)) by exact He. reflexivity.
  - rewrite (proj2 (Rgtb_false_iff _ _)) by (apply Hb; lia).
    rewrite <- IZR_succ_nat.
    replace (k + S d)%nat with (S k + d)%nat in * by lia.
    rewrite (IH (S k) (S n) fuel); try lia; try assumption.
    + replace (S n + d)%nat with (n + S d)%nat by lia. reflexivity.
    + intros j Hj. apply Hb. lia.
Qed.

(** Raising the cap does not change a run that stopped below the cap. *)
Lemma Fragment_for_loop_cap_mono (c : vec2) (m1 m2 : Z) (r : LoopResult) :
  (m1 <= m2)%Z ->
  forall (f1 f2 : nat) (i : R) (z : vec2) (n : nat),
    (f1 <= f2)%nat ->
    Fragment.for_loop f1 c m1 i z n = Some r ->
    count r < IZR m1 ->
    Fragment.for_loop f2 c m2 i z n = Some r.
Proof.
  intros Hm. apply IZR_le in Hm.
  induction f1 as [|f1 IH]; intros f2 i z n Hf Hrun Hlt.
  - cbn [Fragment.for_loop] in Hrun.
    destruct (Rltb i (IZR m1)) eqn:Hg; [discriminate|].
    injection Hrun as <-. cbn [count] in Hlt.
    apply Rltb_false_iff in Hg. lra.
  - destruct f2 as [|f2]; [lia|].
    cbn [Fragment.for_loop] in *.
    destruct (Rltb i (IZR m1)) eqn:Hg.
    + apply Rltb_true_iff in Hg.
      rewrite (proj2 (Rltb_true_iff i (IZR m2))) by lra.
      destruct (Rgtb _ 4); [exact Hrun|].
      apply IH; [lia|exact Hrun|exact Hlt].
    + injection Hrun as <-. cbn [count] in Hlt.
      apply Rltb_false_iff in Hg. lra.
Qed.

(** ** webgl-renderer.ts: the loop of the inlined shader *)

Lemma WebGL_for_loop_total (c : vec2) (m : Z) :
  forall (fuel : nat) (iter : Z) (z : vec2) (ic : R) (n : nat),
    (WebGL.LOOP_BOUND - iter <= Z.of_nat fuel)%Z ->
    exists r, WebGL.for_loop fuel c m iter z ic n = Some r.
Proof.
  induction fuel as [|fuel IH]; intros iter z ic n Hfuel;
    cbn [WebGL.for_loop]; destruct (iter <? WebGL.LOOP_BOUND)%Z eqn:Hg;
    try (eexists; reflexivity).
  - apply Z.ltb_lt in Hg. lia.
  - destruct (Rgeb _ _); [eauto|].
    destruct (Rgtb _ 4); [eauto|].
    apply IH. lia.
Qed.

Lemma WebGL_iterate_total (c : vec2) (m : Z) :
  exists r, WebGL.iterate c m = Some r.
Proof. apply WebGL_for_loop_total. unfold WebGL.LOOP_BOUND. lia. Qed.

(** The recurrence is executed at most once per remaining value of [iter],
    and never once [iter] has reached the cap. *)
Lemma WebGL_for_loop_steps (c : vec2) (m : Z) (r : LoopResult) :
  forall (fuel : nat) (iter : Z) (z : vec2) (ic : R) (n : nat),
    WebGL.for_loop fuel c m iter z ic n = Some r ->
    (Z.of_nat (steps r) <= Z.of_nat n + Z.max 0 (WebGL.LOOP_BOUND - iter))%Z
    /\ (Z.of_nat (steps r) <= Z.of_nat n + Z.max 0 (m - iter))%Z.
Proof.
  induction fuel as [|fuel IH]; intros iter z ic n Hrun;
    cbn [WebGL.for_loop] in Hrun;
    destruct (iter <? WebGL.LOOP_BOUND)%Z eqn:Hg;
    try discriminate;
    try (injection Hrun as <-; cbn [steps]; lia).
  apply Z.ltb_lt in Hg.
  destruct (Rgeb _ _) eqn:Hb.
  - injection Hrun as <-; cbn [steps]; lia.
  - apply Rgeb_false_iff, lt_IZR in Hb.
    destruct (Rgtb _ 4).
    + injection Hrun as <-; cbn [steps]; lia.
    + apply IH in Hrun. lia.
Qed.

(** A run over [d] steps that stay within the radius, up to the smaller of
    the cap and the loop bound: the counter is left at the index of the
    last step, one below the number of steps. *)
Lemma WebGL_for_loop_bounded (c : vec2) (m : Z) :
  forall (d k n fuel : nat) (ic : R),
    Z.of_nat (k + d) = Z.min m WebGL.LOOP_BOUND ->
    (forall j, (k < j <= k + d)%nat -> dot (orbit c j) (orbit c j) <= 4) ->
    (WebGL.LOOP_BOUND - Z.of_nat k <= Z.of_nat fuel)%Z ->
    WebGL.for_loop fuel c m (Z.of_nat k) (orbit c k) ic n
    = Some (Loop (match d with
                  | O => ic
                  | S d' => IZR (Z.of_nat (k + d'))
                  end)
                 (orbit c (k + d)) (n + d)).
Proof.
  induction d as [|d IH]; intros k n fuel ic Hm Hb Hfuel.
  - rewrite !Nat.add_0_r in *.
    destruct (Z.of_nat k <? WebGL.LOOP_BOUND)%Z eqn:Hg.
    + apply Z.ltb_lt in Hg.
      destruct fuel as [|fuel]; [lia|].
      cbn [WebGL.for_loop]. rewrite (proj2 (Z.ltb_lt _ _)) by exact Hg.
      rewrite (proj2 (Rgeb_true_iff _ _)) by (apply Rle_ge, IZR_le; lia).
      reflexivity.
    + destruct fuel; cbn [WebGL.for_loop]; rewrite Hg; reflexivity.
  - destruct fuel as [|fuel]; [lia|].
    cbn [WebGL.for_loop].
    rewrite (proj2 (Z.ltb_lt _ _)) by lia.
    rewrite (proj2 (Rgeb_false_iff _ _)) by (apply IZR_lt; lia).
    change (zNext c (orbit c k)) with (orbit c (S k)).
    rewrite (proj2 (Rgtb_false_iff _ _)) by (apply Hb; lia).
    replace (Z.of_nat k + 1)%Z with (Z.of_nat (S k)) by lia.
    rewrite (IH (S k) (S n) fuel); try lia.
    + replace (S k + d)%nat with (k + S d)%nat by lia.
      replace (S n + d)%nat with (n + S d)%nat by lia.
      destruct d as [|d]; [rewrite Nat.add_0_r; reflexivity|].
      replace (S k + d)%nat with (k + S d)%nat by lia. reflexivity.
    + intros j Hj. apply Hb. lia.
Qed.

(** A run whose step of index [k + d] is the first to leave the radius,
    below the cap and below the loop bound. *)
Lemma WebGL_for_loop_escape (c : vec2) (m : Z) :
  forall (d k n fuel : nat) (ic : R),
    (Z.of_nat (k + d) < Z.min m WebGL.LOOP_BOUND)%Z ->
    (forall j, (k < j <= k + d)%nat -> dot (orbit c j) (orbit c j) <= 4) ->
    dot (orbit c (S (k + d))) (orbit c (S (k + d))) > 4 ->
    (WebGL.LOOP_BOUND - Z.of_nat k <= Z.of_nat fuel)%Z ->
    WebGL.for_loop fuel c m (Z.of_nat k) (orbit c k) ic n
    = Some (Loop (IZR (Z.of_nat (k + d))) (orbit c (S (k + d))) (S (n + d))).
Proof.
  induction d as [|d IH]; intros k n fuel ic Hm Hb He Hfuel;
    (destruct fuel as [|fuel]; [lia|]);
    cbn [WebGL.for_loop];
    rewrite (proj2 (Z.ltb_lt _ _)) by lia;
    rewrite (proj2 (Rgeb_false_iff _ _)) by (apply IZR_lt; lia);
    change (zNext c (orbit c k)) with (orbit c (S k)).
  - rewrite !Nat.add_0_r in *.
    rewrite (proj2 (Rgtb_true_iff _ _)) by exact He. reflexivity.
  - rewrite (proj2 (Rgtb_false_iff _ _)) by (apply Hb; lia).
    replace (Z.of_nat k + 1)%Z with (Z.of_nat (S k)) by lia.
    replace (k + S d)%nat with (S k + d)%nat in * by lia.
    rewrite (IH (S k) (S n) fuel); try lia; try assumption.
    + replace (S n + d)%nat with (n + S d)%nat by lia. reflexivity.
    + intros j Hj. apply Hb. lia.
Qed.

(** ** index.ts, Canvas-2D revision: the loop *)

Lemma Canvas2D_while_loop_total (x0 y0 : R) (m : Z) :
  forall (fuel : nat) (x y : R) (it : Z) (n : nat),
    (m - it <= Z.of_nat fuel)%Z ->
    exists r, Canvas2D.while_loop fuel x0 y0 m x y it n = Some r.
Proof.
  induction fuel as [|fuel IH]; intros x y it n Hfuel;
    cbn [Canvas2D.while_loop];
    destruct (Rleb _ 4 && (it <? m)%Z) eqn:Hg;
    try (eexists; reflexivity).
  - apply andb_true_iff in Hg. destruct Hg as [_ Hg].
    apply Z.ltb_lt in Hg. lia.
  - apply IH. lia.
Qed.

Lemma Canvas2D_run_total (m : Z) (x0 y0 : R) :
  exists r, Canvas2D.run m x0 y0 = Some r.
Proof. apply Canvas2D_while_loop_total. lia. Qed.

(** The loop tests the term it holds before it computes the next: it runs
    [d] times while the terms of index [k .. k + d - 1] stay within the
    radius, and then stops at the cap or at a term outside the radius. *)
Lemma Canvas2D_while_loop_run (x0 y0 : R) (m : Z) :
  let c := Vec2 x0 y0 in
  forall (d k n fuel : nat),
    (Z.of_nat (k + d) <= m)%Z ->
    (forall j, (k <= j < k + d)%nat -> dot (orbit c j) (orbit c j) <= 4) ->
    Z.of_nat (k + d) = m \/ dot (orbit c (k + d)) (orbit c (k + d)) > 4 ->
    (d <= fuel)%nat ->
    Canvas2D.while_loop fuel x0 y0 m (vx (orbit c k)) (vy (orbit c k))
                        (Z.of_nat k) n
    = Some (Z.of_nat (k + d), orbit c (k + d), (n + d)%nat).
Proof.
  intros c.
  induction d as [|d IH]; intros k n fuel Hm Hb Hstop Hfuel.
  - rewrite !Nat.add_0_r in *.
    assert (Hg : Rleb (vx (orbit c k) * vx (orbit c k)
                       + vy (orbit c k) * vy (orbit c k)) 4
                 && (Z.of_nat k <? m)%Z = false).
    { destruct Hstop as [Hk|He].
      - rewrite (proj2 (Z.ltb_ge _ _)) by lia. apply andb_false_r.
      - rewrite (proj2 (Rleb_false_iff _ _)) by exact He. reflexivity. }
    destruct fuel; cbn [Canvas2D.while_loop]; rewrite Hg;
      destruct (orbit c k); reflexivity.
  - destruct fuel as [|fuel]; [lia|].
    cbn [Canvas2D.while_loop].
    rewrite (proj2 (Rleb_true_iff _ _)) by (apply (Hb k); lia).
    rewrite (proj2 (Z.ltb_lt _ _)) by lia.
    cbn [andb].
    replace (Z.of_nat k + 1)%Z with (Z.of_nat (S k)) by lia.
    replace (k + S d)%nat with (S k + d)%nat in * by lia.
    change (vx (orbit c k) * vx (orbit c k) - vy (orbit c k) * vy (orbit c k)
            + x0) with (vx (orbit c (S k))).
    change (2 * vx (orbit c k) * vy (orbit c k) + y0)
      with (vy (orbit c (S k))).
    rewrite (IH (S k) (S n) fuel); try lia; try assumption.
    + replace (S n + d)%nat with (n + S d)%nat by lia. reflexivity.
    + intros j Hj. apply Hb. lia.
Qed.

(** Raising the cap does not change a run that stopped below the cap. *)
Lemma Canvas2D_while_loop_cap_mono (x0 y0 : R) (m1 m2 : Z)
      (r : Z * vec2 * nat) :
  (m1 <= m2)%Z ->
  forall (f1 f2 : nat) (x y : R) (it : Z) (n : nat),
    (f1 <= f2)%nat ->
    Canvas2D.while_loop f1 x0 y0 m1 x y it n = Some r ->
    (fst (fst r) < m1)%Z ->
    Canvas2D.while_loop f2 x0 y0 m2 x y it n = Some r.
Proof.
  intros Hm.
  assert (Hstop : forall (f2 : nat) (x y : R) (it : Z) (n : nat),
             Rleb (x * x + y * y) 4 && (it <? m1)%Z = false ->
             (it < m1)%Z ->
             Canvas2D.while_loop f2 x0 y0 m2 x y it n
             = Some (it, Vec2 x y, n)).
  { intros f2 x y it n Hg Hlt.
    apply andb_false_iff in Hg. destruct Hg as [Hg|Hg].
    - destruct f2; cbn [Canvas2D.while_loop]; rewrite Hg; reflexivity.
    - apply Z.ltb_ge in Hg. lia. }
  induction f1 as [|f1 IH]; intros f2 x y it n Hf Hrun Hlt;
    cbn [Canvas2D.while_loop] in Hrun;
    destruct (Rleb (x * x + y * y) 4 && (it <? m1)%Z) eqn:Hg;
    try discriminate;
    try (injection Hrun as <-; cbn [fst] in Hlt; apply Hstop; assumption).
  destruct f2 as [|f2]; [lia|].
  cbn [Canvas2D.while_loop].
  apply andb_true_iff in Hg. destruct Hg as [Hg1 Hg2].
  apply Z.ltb_lt in Hg2.
  rewrite Hg1, (proj2 (Z.ltb_lt it m2)) by lia. cbn [andb].
  apply IH; [lia|exact Hrun|exact Hlt].
Qed.

(** ** What the evaluators return *)

Lemma orbit_0_within (c : vec2) : dot (orbit c 0) (orbit c 0) <= 4.
Proof. unfold dot. cbn [orbit vx vy]. lra. Qed.

(** [fragment.glsl]: a point that stays within the radius for the whole
    run gets exactly the cap, unsmoothed. *)
Lemma Fragment_evaluate_bounded (c : vec2) (m : Z) :
  (0 <= m)%Z ->
  bounded_upto c (Z.to_nat m) ->
  Fragment.iterate c m = Some (Loop (IZR m) (orbit c (Z.to_nat m)) (Z.to_nat m))
  /\ Fragment.evaluate c m = Some (IZR m).
Proof.
  intros Hm Hb.
  assert (Hrun : Fragment.iterate c m
                 = Some (Loop (IZR m) (orbit c (Z.to_nat m)) (Z.to_nat m))).
  { unfold Fragment.iterate.
    apply (Fragment_for_loop_bounded c m (Z.to_nat m) 0 0 (Z.to_nat m));
      [lia| |lia].
    intros j Hj. apply Hb. lia. }
  split; [exact Hrun|].
  unfold Fragment.evaluate. rewrite Hrun. cbn [option_map].
  unfold Fragment.smoothing. cbn [count].
  rewrite (proj2 (Rltb_false_iff _ _)) by lra. reflexivity.
Qed.

(** [fragment.glsl]: a point whose step of index [n] is the first to leave
    the radius, below the cap, gets the smoothed value of that step. *)
Lemma Fragment_evaluate_escape (c : vec2) (m : Z) (n : nat) :
  escapes_at c n ->
  (Z.of_nat n < m)%Z ->
  Fragment.iterate c m = Some (Loop (INR n) (orbit c (S n)) (S n))
  /\ Fragment.evaluate c m = Some (smooth (INR n) (orbit c (S n))).
Proof.
  intros [Hb He] Hn.
  assert (Hrun : Fragment.iterate c m
                 = Some (Loop (INR n) (orbit c (S n)) (S n))).
  { unfold Fragment.iterate. rewrite INR_IZR_INZ.
    apply (Fragment_for_loop_escape c m n 0 0 (Z.to_nat m));
      [exact Hn| |exact He|lia].
    intros j Hj. apply Hb. lia. }
  split; [exact Hrun|].
  unfold Fragment.evaluate. rewrite Hrun. cbn [option_map].
  unfold Fragment.smoothing. cbn [count zlast].
  rewrite (proj2 (Rltb_true_iff _ _))
    by (rewrite INR_IZR_INZ; apply IZR_lt; exact Hn).
  reflexivity.
Qed.

(** The inlined shader: a point that stays within the radius for the
    whole run leaves the counter one below the cap, and the smoothing
    block runs on it. *)
Lemma WebGL_evaluate_bounded (c : vec2) (m : Z) :
  (1 <= m <= WebGL.LOOP_BOUND)%Z ->
  bounded_upto c (Z.to_nat m) ->
  WebGL.iterate c m
  = Some (Loop (IZR (m - 1)) (orbit c (Z.to_nat m)) (Z.to_nat m))
  /\ WebGL.evaluate c m = Some (smooth (IZR (m - 1)) (orbit c (Z.to_nat m))).
Proof.
  intros Hm Hb.
  assert (Hrun : WebGL.iterate c m
           = Some (Loop (IZR (m - 1)) (orbit c (Z.to_nat m)) (Z.to_nat m))).
  { unfold WebGL.iterate.
    destruct (Z.to_nat m) as [|d] eqn:Hd; [lia|].
    pose proof (WebGL_for_loop_bounded c m (S d) 0 0
                  (Z.to_nat WebGL.LOOP_BOUND) 0) as Hloop.
    cbn [Nat.add] in Hloop. change (Z.of_nat 0) with 0%Z in Hloop.
    change (orbit c 0) with (Vec2 0 0) in Hloop.
    rewrite Hloop.
    - replace (Z.of_nat d) with (m - 1)%Z by lia. reflexivity.
    - unfold WebGL.LOOP_BOUND in *. lia.
    - intros j Hj. apply Hb. lia.
    - unfold WebGL.LOOP_BOUND. lia. }
  split; [exact Hrun|].
  unfold WebGL.evaluate. rewrite Hrun. cbn [option_map].
  unfold WebGL.smoothing. cbn [count zlast].
  rewrite (proj2 (Rltb_true_iff _ _)) by (apply IZR_lt; lia).
  reflexivity.
Qed.

(** The inlined shader: an escape below the cap and below the loop bound
    gets the smoothed value of its step. *)
Lemma WebGL_evaluate_escape (c : vec2) (m : Z) (n : nat) :
  escapes_at c n ->
  (Z.of_nat n < m)%Z ->
  (Z.of_nat n < WebGL.LOOP_BOUND)%Z ->
  WebGL.iterate c m = Some (Loop (INR n) (orbit c (S n)) (S n))
  /\ WebGL.evaluate c m = Some (smooth (INR n) (orbit c (S n))).
Proof.
  intros [Hb He] Hn Hn'.
  assert (Hrun : WebGL.iterate c m
                 = Some (Loop (INR n) (orbit c (S n)) (S n))).
  { unfold WebGL.iterate. rewrite INR_IZR_INZ.
    apply (WebGL_for_loop_escape c m n 0 0 (Z.to_nat WebGL.LOOP_BOUND) 0);
      [cbn [Nat.add]; lia| |exact He|unfold WebGL.LOOP_BOUND; lia].
    intros j Hj. apply Hb. lia. }
  split; [exact Hrun|].
  unfold WebGL.evaluate. rewrite Hrun. cbn [option_map].
  unfold WebGL.smoothing. cbn [count zlast].
  rewrite (proj2 (Rltb_true_iff _ _))
    by (rewrite INR_IZR_INZ; apply IZR_lt; exact Hn).
  reflexivity.
Qed.

(** The pixel loop: the cap for a point that stays within the radius. *)
Lemma Canvas2D_calculateMandelbrot_bounded (m : Z) (x0 y0 : R) :
  (0 <= m)%Z ->
  bounded_upto (Vec2 x0 y0) (Z.to_nat m) ->
  Canvas2D.calculateMandelbrot m x0 y0 = Some m.
Proof.
  intros Hm Hb. unfold Canvas2D.calculateMandelbrot, Canvas2D.run.
  pose proof (Canvas2D_while_loop_run x0 y0 m (Z.to_nat m) 0 0 (Z.to_nat m))
    as Hloop.
  cbn zeta in Hloop. cbn [Nat.add] in Hloop.
  change (Z.of_nat 0) with 0%Z in Hloop.
  change (orbit (Vec2 x0 y0) 0) with (Vec2 0 0) in Hloop.
  cbn [vx vy] in Hloop.
  rewrite Hloop.
  - cbn [option_map fst]. f_equal. lia.
  - lia.
  - intros j Hj. destruct j; [apply orbit_0_within|]. apply Hb. lia.
  - left. lia.
  - lia.
Qed.

(** The pixel loop: the number of steps performed, [n + 1], for a point
    whose step of index [n] is the first to leave the radius. *)
Lemma Canvas2D_calculateMandelbrot_escape (m : Z) (x0 y0 : R) (n : nat) :
  escapes_at (Vec2 x0 y0) n ->
  (Z.of_nat n < m)%Z ->
  Canvas2D.calculateMandelbrot m x0 y0 = Some (Z.of_nat n + 1)%Z.
Proof.
  intros [Hb He] Hn. unfold Canvas2D.calculateMandelbrot, Canvas2D.run.
  pose proof (Canvas2D_while_loop_run x0 y0 m (S n) 0 0 (Z.to_nat m))
    as Hloop.
  cbn zeta in Hloop. cbn [Nat.add] in Hloop.
  change (Z.of_nat 0) with 0%Z in Hloop.
  change (orbit (Vec2 x0 y0) 0) with (Vec2 0 0) in Hloop.
  cbn [vx vy] in Hloop.
  rewrite Hloop.
  - cbn [option_map fst]. f_equal. lia.
  - lia.
  - intros j Hj. destruct j; [apply orbit_0_within|]. apply Hb. lia.
  - right. exact He.
  - lia.
Qed.

(** ** Two orbits *)

(** [c = 3]: the first step leaves the radius. *)
Lemma escapes_at_3 : escapes_at (Vec2 3 0) 0.
Proof.
  split.
  - intros k Hk. lia.
  - unfold dot. cbn [orbit zNext zSquared vadd vx vy]. lra.
Qed.

(** [c = i]: the orbit [i, -1 + i, -i, -1 + i, -i, ...] never leaves it. *)
Lemma orbit_i_period (j : nat) :
  orbit (Vec2 0 1) (2 * j + 2) = Vec2 (-1) 1
  /\ orbit (Vec2 0 1) (2 * j + 3) = Vec2 0 (-1).
Proof.
  induction j as [|j [IH2 IH3]].
  - split; cbn [orbit Nat.mul Nat.add]; unfold zNext, zSquared, vadd;
      cbn [vx vy]; f_equal; lra.
  - replace (2 * S j + 2)%nat with (S (2 * j + 3)) by lia.
    replace (2 * S j + 3)%nat with (S (S (2 * j + 3))) by lia.
    cbn [orbit]. rewrite IH3.
    split; unfold zNext, zSquared, vadd; cbn [vx vy]; f_equal; lra.
Qed.

Lemma orbit_i_bounded (m : nat) : bounded_upto (Vec2 0 1) m.
Proof.
  intros k [Hk _].
  destruct (Nat.Even_or_Odd k) as [[j Hj]|[j Hj]].
  - destruct j as [|j]; [lia|].
    replace k with (2 * j + 2)%nat by lia.
    rewrite (proj1 (orbit_i_period j)). unfold dot. cbn [vx vy]. lra.
  - destruct j as [|j].
    + replace k with 1%nat by lia.
      unfold dot. cbn [orbit zNext zSquared vadd vx vy]. lra.
    + replace k with (2 * j + 3)%nat by lia.
      rewrite (proj2 (orbit_i_period j)). unfold dot. cbn [vx vy]. lra.
Qed.

(** The smoothing term of [-1 + i], a point inside the radius. *)
Lemma nu_minus1_plus_i : nu (Vec2 (-1) 1) = -1.
Proof.
  assert (H2 := ln_2_pos).
  unfold nu, log_zn.
  replace (dot (Vec2 (-1) 1) (Vec2 (-1) 1)) with 2
    by (unfold dot; cbn [vx vy]; lra).
  replace (ln 2 / 2 / ln 2) with (/ 2) by (field; lra).
  rewrite ln_Rinv by lra. field. lra.
Qed.

(** The smoothing term of [3] lies strictly between 0 and 1. *)
Lemma nu_3_fractional : 0 < nu (Vec2 3 0) < 1.
Proof.
  assert (H2 := ln_2_pos).
  assert (Hd : dot (Vec2 3 0) (Vec2 3 0) = 3 * 3)
    by (unfold dot; cbn [vx vy]; lra).
  split.
  - apply nu_escaped_pos. rewrite Hd. lra.
  - unfold nu, log_zn. rewrite Hd, ln_mult by lra.
    replace ((ln 3 + ln 3) / 2 / ln 2) with (ln 3 / ln 2) by (field; lra).
    assert (H23 : ln 2 < ln 3) by (apply ln_increasing; lra).
    assert (H34 : ln 3 < ln 2 + ln 2).
    { rewrite <- ln_mult by lra. apply ln_increasing; lra. }
    assert (Hlo : 1 < ln 3 / ln 2).
    { apply Rmult_lt_reg_r with (ln 2); [exact H2|].
      unfold Rdiv. rewrite Rmult_assoc, Rinv_l by lra. lra. }
    assert (Hhi : ln 3 / ln 2 < 2).
    { apply Rmult_lt_reg_r with (ln 2); [exact H2|].
      unfold Rdiv. rewrite Rmult_assoc, Rinv_l by lra. lra. }
    assert (Hln : ln (ln 3 / ln 2) < ln 2) by (apply ln_increasing; lra).
    apply Rmult_lt_reg_r with (ln 2); [exact H2|].
    unfold Rdiv at 1. rewrite Rmult_assoc, Rinv_l by lra. lra.
Qed.

Lemma orbit_3_first : orbit (Vec2 3 0) 1 = Vec2 3 0.
Proof.
  cbn [orbit]. unfold zNext, zSquared, vadd. cbn [vx vy]. f_equal; lra.
Qed.

(** ** The claims on the escape-time evaluators *)

(** C1, as the inlined shader of [webgl-renderer.ts] contradicts it.
    The point [c = i] stays within the radius for 100 steps (for any number
    of steps), and with [maxIterations = 100] the shader does not return
    100: its counter is left at 99, the test [iterCount < float(maxIter)]
    succeeds, the smoothing block runs on the unescaped [z = -1 + i], and
    the value handed to [getColor] is 101. *)
Theorem C1_webgl_shader_smooths_unescaped_point :
  bounded_upto (Vec2 0 1) 100
  /\ WebGL.iterate (Vec2 0 1) 100 = Some (Loop 99 (Vec2 (-1) 1) 100)
  /\ WebGL.evaluate (Vec2 0 1) 100 = Some 101.
Proof.
  assert (Hb := orbit_i_bounded 100).
  split; [exact Hb|].
  assert (Hm : (1 <= 100 <= WebGL.LOOP_BOUND)%Z)
    by (unfold WebGL.LOOP_BOUND; lia).
  assert (Hn : Z.to_nat 100 = (2 * 49 + 2)%nat) by reflexivity.
  destruct (WebGL_evaluate_bounded (Vec2 0 1) 100 Hm) as [Hrun Hval].
  { rewrite Hn. apply orbit_i_bounded. }
  rewrite Hn in Hrun, Hval.
  rewrite (proj1 (orbit_i_period 49)) in Hrun, Hval.
  split.
  - rewrite Hrun. reflexivity.
  - rewrite Hval. unfold smooth. rewrite nu_minus1_plus_i.
    f_equal. change (100 - 1)%Z with 99%Z. lra.
Qed.

(** [fragment.glsl] does what C1 asks of it: the origin never leaves the
    radius and gets exactly the cap. *)
Lemma orbit_origin (k : nat) : orbit (Vec2 0 0) k = Vec2 0 0.
Proof.
  induction k as [|k IH]; [reflexivity|].
  cbn [orbit]. rewrite IH. unfold zNext, zSquared, vadd. cbn [vx vy].
  f_equal; lra.
Qed.

Lemma Fragment_evaluate_origin (m : Z) :
  (1 <= m)%Z -> Fragment.evaluate (Vec2 0 0) m = Some (IZR m).
Proof.
  intros Hm. apply Fragment_evaluate_bounded; [lia|].
  intros k _. rewrite orbit_origin. unfold dot. cbn [vx vy]. lra.
Qed.

(** C2, refuted as stated: the Canvas-2D pixel loop is one of the render
    paths and has no smoothing.  For [c = 3], which escapes at the first
    step, and cap 2 it returns the integer 1, which is [k + 1 - nu] for no
    integer [k] whatever the convention for numbering the steps. *)
Lemma C2_canvas2d_returns_unsmoothed_count :
  escapes_at (Vec2 3 0) 0
  /\ Canvas2D.calculateMandelbrot 2 3 0 = Some 1%Z
  /\ forall k : Z, IZR 1 <> smooth (IZR k) (orbit (Vec2 3 0) 1).
Proof.
  split; [exact escapes_at_3|]. split.
  - apply (Canvas2D_calculateMandelbrot_escape 2 3 0 0 escapes_at_3). lia.
  - intros k Hk. rewrite orbit_3_first in Hk. unfold smooth in Hk.
    destruct nu_3_fractional as [Hlo Hhi].
    assert (H0 : IZR 0 < IZR k) by lra.
    assert (H1 : IZR k < IZR 1) by lra.
    apply lt_IZR in H0, H1. lia.
Qed.

(** C2, amended: for every [c] whose step of index [n] (counting from 0)
    is the first with [|z|^2 > 4], and every cap above [n], both fragment
    shaders return [n + 1 - nu] with [log_zn = ln(|z|^2) / 2] and
    [nu = ln(log_zn / ln 2) / ln 2] taken at the value of [z] of that step
    (the inlined shader provided [n] is below its loop bound of 1000),
    and both logarithms have positive arguments there; the Canvas-2D pixel
    loop applies no smoothing and returns the number [n + 1] of steps it
    performed. *)
Theorem C2_smoothing_on_shader_paths (c : vec2) (m : Z) (n : nat) :
  escapes_at c n ->
  (Z.of_nat n < m)%Z ->
  let z := orbit c (S n) in
  Fragment.evaluate c m
  = Some (INR n + 1 - ln (ln (dot z z) / 2 / ln 2) / ln 2)
  /\ ((Z.of_nat n < WebGL.LOOP_BOUND)%Z ->
      WebGL.evaluate c m
      = Some (INR n + 1 - ln (ln (dot z z) / 2 / ln 2) / ln 2))
  /\ 0 < dot z z
  /\ 0 < ln (dot z z) / 2 / ln 2
  /\ Canvas2D.calculateMandelbrot m (vx c) (vy c) = Some (Z.of_nat n + 1)%Z.
Proof.
  intros Hesc Hn z.
  assert (He : dot z z > 4) by (destruct Hesc as [_ He]; exact He).
  split; [apply (Fragment_evaluate_escape c m n Hesc Hn)|].
  split; [intros Hb; apply (WebGL_evaluate_escape c m n Hesc Hn Hb)|].
  split; [lra|].
  split; [generalize (log_zn_escaped z He); unfold log_zn; lra|].
  destruct c as [x0 y0]. cbn [vx vy].
  apply Canvas2D_calculateMandelbrot_escape; assumption.
Qed.

Lemma C2_smoothing_on_shader_paths_witness :
  Fragment.evaluate (Vec2 3 0) 2
  = Some (INR 0 + 1 - ln (ln (dot (orbit (Vec2 3 0) 1) (orbit (Vec2 3 0) 1))
                          / 2 / ln 2) / ln 2)
  /\ Canvas2D.calculateMandelbrot 2 3 0 = Some 1%Z.
Proof.
  assert (Hn : (Z.of_nat 0 < 2)%Z) by (simpl; lia).
  destruct (C2_smoothing_on_shader_paths (Vec2 3 0) 2 0 escapes_at_3 Hn)
    as [HF [_ [_ [_ HC]]]].
  split; [exact HF|exact HC].
Defined.

(** C7: for every [c] and caps [m1 <= m2], if the run under cap [m1]
    stopped at an escape (in [fragment.glsl]: the loop counter is below
    [m1]; in the pixel loop: the returned count is below [m1]), the run
    under cap [m2] stops at the same iteration with the same [z], and the
    evaluator returns the same value. *)
Theorem C7_escape_independent_of_cap (c : vec2) (m1 m2 : Z) :
  (m1 <= m2)%Z ->
  (forall r : LoopResult,
      Fragment.iterate c m1 = Some r ->
      count r < IZR m1 ->
      Fragment.iterate c m2 = Some r
      /\ Fragment.evaluate c m2 = Fragment.evaluate c m1)
  /\ (forall n : Z,
         Canvas2D.calculateMandelbrot m1 (vx c) (vy c) = Some n ->
         (n < m1)%Z ->
         Canvas2D.calculateMandelbrot m2 (vx c) (vy c) = Some n).
Proof.
  intros Hm. split.
  - intros r Hrun Hlt.
    assert (Hrun2 : Fragment.iterate c m2 = Some r).
    { unfold Fragment.iterate in *.
      apply (Fragment_for_loop_cap_mono c m1 m2 r Hm (Z.to_nat m1));
        [lia|exact Hrun|exact Hlt]. }
    split; [exact Hrun2|].
    unfold Fragment.evaluate. rewrite Hrun, Hrun2. cbn [option_map].
    unfold Fragment.smoothing.
    apply IZR_le in Hm.
    rewrite !(proj2 (Rltb_true_iff _ _)) by lra. reflexivity.
  - intros n Hrun Hlt.
    unfold Canvas2D.calculateMandelbrot, Canvas2D.run in *.
    destruct (Canvas2D.while_loop (Z.to_nat m1) _ _ m1 0 0 0 0)
      as [r|] eqn:Hr; [|discriminate].
    cbn [option_map] in Hrun. injection Hrun as Hn.
    rewrite (Canvas2D_while_loop_cap_mono _ _ m1 m2 r Hm
               (Z.to_nat m1) (Z.to_nat m2) 0 0 0 0);
      [cbn [option_map]; rewrite Hn; reflexivity|lia|exact Hr|lia].
Qed.

Lemma C7_escape_independent_of_cap_witness :
  Fragment.evaluate (Vec2 3 0) 5 = Fragment.evaluate (Vec2 3 0) 2
  /\ Canvas2D.calculateMandelbrot 5 3 0 = Some 1%Z.
Proof.
  assert (Hm : (2 <= 5)%Z) by lia.
  assert (Hn : (Z.of_nat 0 < 2)%Z) by (simpl; lia).
  destruct (C7_escape_independent_of_cap (Vec2 3 0) 2 5 Hm) as [HF HC].
  split.
  - apply (HF (Loop (INR 0) (orbit (Vec2 3 0) 1) 1)).
    + apply (Fragment_evaluate_escape (Vec2 3 0) 2 0 escapes_at_3 Hn).
    + cbn [count INR]. lra.
  - apply HC.
    + apply (Canvas2D_calculateMandelbrot_escape 2 3 0 0 escapes_at_3 Hn).
    + lia.
Defined.

(** C8: for every [c], with [maxIterations = 0] every evaluator returns 0
    as a regular value; the loop body is not entered: [z] is still the
    initial [0] and the recurrence has been executed 0 times. *)
Theorem C8_zero_cap_returns_zero (c : vec2) :
  (Fragment.iterate c 0 = Some (Loop 0 (Vec2 0 0) 0)
   /\ Fragment.evaluate c 0 = Some 0)
  /\ (Canvas2D.run 0 (vx c) (vy c) = Some (0%Z, Vec2 0 0, 0%nat)
      /\ Canvas2D.calculateMandelbrot 0 (vx c) (vy c) = Some 0%Z)
  /\ (WebGL.iterate c 0 = Some (Loop 0 (Vec2 0 0) 0)
      /\ WebGL.evaluate c 0 = Some 0).
Proof.
  assert (HF : Fragment.iterate c 0 = Some (Loop 0 (Vec2 0 0) 0)).
  { unfold Fragment.iterate. cbn [Z.to_nat Fragment.for_loop].
    rewrite (proj2 (Rltb_false_iff 0 0)) by lra. reflexivity. }
  assert (HC : Canvas2D.run 0 (vx c) (vy c) = Some (0%Z, Vec2 0 0, 0%nat)).
  { unfold Canvas2D.run. cbn [Z.to_nat Canvas2D.while_loop].
    rewrite Z.ltb_irrefl, andb_false_r. reflexivity. }
  assert (HW : WebGL.iterate c 0 = Some (Loop 0 (Vec2 0 0) 0)).
  { unfold WebGL.iterate.
    apply (WebGL_for_loop_bounded c 0 0 0 0 (Z.to_nat WebGL.LOOP_BOUND) 0).
    - reflexivity.
    - intros j Hj. lia.
    - unfold WebGL.LOOP_BOUND. lia. }
  repeat split; try assumption.
  - unfold Fragment.evaluate. rewrite HF. cbn [option_map].
    unfold Fragment.smoothing. cbn [count].
    rewrite (proj2 (Rltb_false_iff 0 0)) by lra. reflexivity.
  - unfold Canvas2D.calculateMandelbrot. rewrite HC. reflexivity.
  - unfold WebGL.evaluate. rewrite HW. cbn [option_map].
    unfold WebGL.smoothing. cbn [count].
    rewrite (proj2 (Rltb_false_iff 0 0)) by lra. reflexivity.
Qed.

(** C10: for every point and every configured cap the loop of the inlined
    shader of [webgl-renderer.ts] returns, having executed the recurrence
    at most 1000 times (and at most [u_max_iterations] times); with a cap
    above 1000 a point that stays within the radius gets exactly 1000
    executions. *)
Theorem C10_shader_loop_bounded_by_1000 (c : vec2) (maxIter : Z) :
  exists r : LoopResult,
    WebGL.iterate c maxIter = Some r
    /\ (steps r <= 1000)%nat
    /\ (Z.of_nat (steps r) <= Z.max 0 maxIter)%Z
    /\ ((1000 < maxIter)%Z -> bounded_upto c 1000 -> steps r = 1000%nat).
Proof.
  destruct (WebGL_iterate_total c maxIter) as [r Hr].
  exists r. split; [exact Hr|].
  destruct (WebGL_for_loop_steps c maxIter r _ _ _ _ _ Hr) as [H1 H2].
  unfold WebGL.LOOP_BOUND in H1.
  split; [lia|]. split; [lia|].
  intros Hm Hb.
  pose proof (WebGL_for_loop_bounded c maxIter 1000 0 0
                (Z.to_nat WebGL.LOOP_BOUND) 0) as Hloop.
  change (Z.of_nat 0) with 0%Z in Hloop.
  change (orbit c 0) with (Vec2 0 0) in Hloop.
  unfold WebGL.iterate in Hr. rewrite Hloop in Hr.
  - injection Hr as <-. reflexivity.
  - unfold WebGL.LOOP_BOUND. lia.
  - intros j Hj. apply Hb. lia.
  - unfold WebGL.LOOP_BOUND. lia.
Qed.

Lemma C10_shader_loop_bounded_by_1000_witness :
  exists r : LoopResult,
    WebGL.iterate (Vec2 0 0) 2000 = Some r /\ steps r = 1000%nat.
Proof.
  destruct (C10_shader_loop_bounded_by_1000 (Vec2 0 0) 2000)
    as [r [Hr [_ [_ Hfull]]]].
  exists r. split; [exact Hr|].
  apply Hfull; [lia|].
  intros k _. rewrite orbit_origin. unfold dot. cbn [vx vy]. lra.
Defined.

(** The inlined shader too returns the same value under every cap above
    an escape that lies below its loop bound. *)
Lemma WebGL_evaluate_cap_independent (c : vec2) (m1 m2 : Z) (n : nat) :
  escapes_at c n ->
  (Z.of_nat n < m1 <= m2)%Z ->
  (Z.of_nat n < WebGL.LOOP_BOUND)%Z ->
  WebGL.evaluate c m2 = WebGL.evaluate c m1.
Proof.
  intros Hesc Hm Hb.
  rewrite (proj2 (WebGL_evaluate_escape c m1 n Hesc (proj1 Hm) Hb)).
  apply (WebGL_evaluate_escape c m2 n Hesc); lia.
Qed.

(** ** The renderer's viewport *)

Section RendererFacts.

Import WebGL.

Variable rev : Revision.

(** Rendering resizes the raster and leaves the viewport alone. *)
Lemma render_viewport (r : Renderer) :
  getViewport (render rev r) = getViewport r.
Proof.
  unfold render, resizeCanvasToDisplaySize.
  destruct rev; match goal with |- context [if ?b then _ else _] =>
                  destruct b end; reflexivity.
Qed.

Lemma render_viewportX (r : Renderer) : viewportX (render rev r) = viewportX r.
Proof. exact (f_equal x (render_viewport r)). Qed.

Lemma render_viewportY (r : Renderer) : viewportY (render rev r) = viewportY r.
Proof. exact (f_equal y (render_viewport r)). Qed.

Lemma render_zoom (r : Renderer) : zoom (render rev r) = zoom r.
Proof. exact (f_equal vzoom (render_viewport r)). Qed.


(** Up to the zoom threshold a raster that already has the display size
    keeps it, in both revisions. *)
Lemma render_native (r : Renderer) :
  zoom r <= 100 ->
  width (canvas r) = clientWidth (canvas r) ->
  height (canvas r) = clientHeight (canvas r) ->
  render rev r = r.
Proof.
  intros Hz Hw Hh. unfold render, resizeCanvasToDisplaySize.
  destruct rev.
  - rewrite Hw, Hh, !Z.eqb_refl. reflexivity.
  - unfold calculateResolutionFactor, zoomThreshold, baseResolutionFactor.
    rewrite (proj2 (Rleb_true_iff _ _)) by lra.
    rewrite !Rmult_1_r.
    rewrite !ZfloorZ, Hw, Hh, !Z.eqb_refl. reflexivity.
Qed.

(** What [pan] does to the viewport: the deltas are taken from a plane
    of height [3.0 / zoom]. *)
Lemma pan_viewport (deltaX deltaY : R) (r : Renderer) :
  let w := IZR (width (canvas r)) in
  let h := IZR (height (canvas r)) in
  viewportX (pan rev deltaX deltaY r)
  = viewportX r - deltaX * (3 / zoom r * (w / h)) / w
  /\ viewportY (pan rev deltaX deltaY r)
     = viewportY r + deltaY * (3 / zoom r) / h
  /\ zoom (pan rev deltaX deltaY r) = zoom r.
Proof.
  unfold pan. rewrite render_viewportX, render_viewportY, render_zoom.
  cbn [setViewport viewportX viewportY zoom].
  repeat split; lra.
Qed.

End RendererFacts.

(** The deltas of [pan] are one and a half times those of the visible
    rectangle, of height [2.0 / zoom]. *)
Lemma pan_three_halves (rev : WebGL.Revision) (deltaX deltaY : R)
      (r : WebGL.Renderer) :
  let w := IZR (WebGL.width (WebGL.canvas r)) in
  let h := IZR (WebGL.height (WebGL.canvas r)) in
  let rangeY := 2 / WebGL.zoom r in
  let rangeX := rangeY * (w / h) in
  2 * (WebGL.viewportX r - WebGL.viewportX (WebGL.pan rev deltaX deltaY r))
  = 3 * (deltaX * rangeX / w)
  /\ 2 * (WebGL.viewportY (WebGL.pan rev deltaX deltaY r) - WebGL.viewportY r)
     = 3 * (deltaY * rangeY / h).
Proof.
  intros w h rangeY rangeX.
  destruct (pan_viewport rev deltaX deltaY r) as [HX [HY _]].
  cbn zeta in HX, HY. rewrite HX, HY.
  unfold rangeX, rangeY, w, h, Rdiv. split; ring.
Qed.

(** C5, as [pan] contradicts it.  On the 800 by 600 canvas with the
    default view (zoom 1) the visible rectangle is [8/3] wide and [2]
    high, so a drag by (80, 60) pixels is a tenth of it: [4/15] and [0.2].
    [pan(80, 60)] moves centerX by [0.4] and centerY by [0.3]: it takes the
    plane to be [3.0 / zoom] high. *)
Theorem C5_pan_scales_by_3_not_2 (rev : WebGL.Revision) :
  let r := WebGL.pan rev 80 60 (defaultView 1) in
  let rangeY := 2 / 1 in
  let rangeX := rangeY * (800 / 600) in
  WebGL.viewportX r = -0.5 - 0.4
  /\ WebGL.viewportY r = 0 + 0.3
  /\ 80 * rangeX / 800 = 4 / 15
  /\ 60 * rangeY / 600 = 0.2
  /\ WebGL.viewportX r <> -0.5 - 80 * rangeX / 800
  /\ WebGL.viewportY r <> 0 + 60 * rangeY / 600.
Proof.
  intros r rangeY rangeX.
  destruct (pan_viewport rev 80 60 (defaultView 1)) as [HX [HY _]].
  cbn zeta in HX, HY. fold r in HX, HY.
  cbn [defaultView canvas800 WebGL.viewportX WebGL.viewportY WebGL.zoom
       WebGL.canvas WebGL.width WebGL.height] in HX, HY.
  unfold rangeX, rangeY. rewrite HX, HY.
  repeat split; lra.
Qed.



(** The shader shows at a screen position the point that the coordinate
    mapper of the specification assigns to it. *)
Lemma shownAt_spec (r : WebGL.Renderer) (sx sy : R) :
  IZR (WebGL.height (WebGL.canvas r)) <> 0 ->
  shownAt r sx sy
  = Spec.screenToComplex (WebGL.viewportX r) (WebGL.viewportY r)
      (WebGL.zoom r) (IZR (WebGL.width (WebGL.canvas r)))
      (IZR (WebGL.height (WebGL.canvas r))) sx sy.
Proof.
  intros Hh.
  unfold shownAt, fragmentAt, WebGL.framePixel, WebGL.pixel,
    Spec.screenToComplex, vadd, vdiv.
  cbn [vx vy]. f_equal. field_but (WebGL.zoom r). exact Hh.
Qed.

Section ViewportUpdates.

Import WebGL.

Variable rev : Revision.

Lemma updateViewport_viewport (nx ny : R) (r : Renderer) :
  getViewport (updateViewport rev nx ny r)
  = {| x := nx; y := ny; vzoom := zoom r |}.
Proof. unfold updateViewport. rewrite render_viewport. reflexivity. Qed.

Lemma updateZoom_viewport (z : R) (r : Renderer) :
  getViewport (updateZoom rev z r)
  = {| x := viewportX r; y := viewportY r; vzoom := z |}.
Proof. unfold updateZoom. rewrite render_viewport. reflexivity. Qed.

(** Setting the centre and then the zoom. *)
Lemma update_both_viewport (nx ny z : R) (r : Renderer) :
  getViewport (updateZoom rev z (updateViewport rev nx ny r))
  = {| x := nx; y := ny; vzoom := z |}.
Proof.
  rewrite updateZoom_viewport. unfold updateViewport.
  rewrite render_viewportX, render_viewportY. reflexivity.
Qed.

(** Below the zoom threshold, on a raster of the display size, the two
    updates change nothing but the viewport. *)
Lemma update_both_native (nx ny z : R) (r : Renderer) :
  zoom r <= 100 -> z <= 100 ->
  width (canvas r) = clientWidth (canvas r) ->
  height (canvas r) = clientHeight (canvas r) ->
  updateZoom rev z (updateViewport rev nx ny r) = setViewport r nx ny z.
Proof.
  intros Hz Hz' Hw Hh. unfold updateViewport.
  rewrite render_native by assumption.
  unfold updateZoom. rewrite render_native by assumption.
  reflexivity.
Qed.

End ViewportUpdates.

(** ** Selecting an area *)

Section Selection.

Import WebGL.
Import Index.

Variable rev : Revision.

Lemma zoomToSelection_viewport (startX startY endX endY : R)
      (s : MandelbrotSet) :
  let r := renderer s in
  let cw := IZR (width (canvas r)) in
  let ch := IZR (height (canvas r)) in
  let rangeY := 2 / zoom r in
  let rangeX := rangeY * (cw / ch) in
  getViewport (renderer (zoomToSelection rev startX startY endX endY s))
  = {| x := viewportX r - rangeX / 2
            + (startX + endX) / 2 * (rangeX / cw);
       y := viewportY r - rangeY / 2
            + (startY + endY) / 2 * (rangeY / ch);
       vzoom := zoom r * Rmin (cw / Rabs (endX - startX))
                              (ch / Rabs (endY - startY)) |}.
Proof.
  unfold zoomToSelection. cbn [renderer withRenderer].
  rewrite update_both_viewport. reflexivity.
Qed.

(** Below the dead zone, and in every state that is not a selection
    drag, pointer-up leaves the renderer as it is. *)
Lemma mouseup_dead_zone (e : MouseEvent) (s : MandelbrotSet)
      (start : Point) :
  selectionStart s = Some start ->
  Rabs (offsetX e - px start) <= 10 \/ Rabs (offsetY e - py start) <= 10 ->
  renderer (mouseup rev e s) = renderer s.
Proof.
  intros Hs Hsmall. unfold mouseup. rewrite Hs.
  destruct (isDragging s && isSelect (interactionMode s)); [|reflexivity].
  assert (Hg : Rgtb (Rabs (offsetX e - px start)) 10
               && Rgtb (Rabs (offsetY e - py start)) 10 = false).
  { apply andb_false_iff.
    destruct Hsmall as [H|H]; [left|right]; apply Rgtb_false_iff; exact H. }
  rewrite Hg. reflexivity.
Qed.

Lemma mouseup_not_selecting (e : MouseEvent) (s : MandelbrotSet) :
  selectionStart s = None \/ isDragging s = false
  \/ interactionMode s = Pan ->
  renderer (mouseup rev e s) = renderer s.
Proof.
  intros H. unfold mouseup.
  destruct (selectionStart s) as [start|]; [|reflexivity].
  destruct H as [H|[H|H]]; [discriminate| |]; rewrite H;
    [|rewrite andb_false_r]; reflexivity.
Qed.

(** Above the dead zone: the zoom is multiplied by the smaller of the
    two ratios, the real part of the new centre is the one the
    coordinate mapper gives to the midpoint of the rectangle, and the
    imaginary part is the one it gives to the mirror image of the
    midpoint in the horizontal centre line of the canvas. *)
Lemma mouseup_selection (e : MouseEvent) (s : MandelbrotSet)
      (start : Point) :
  let r := renderer s in
  let cw := IZR (width (canvas r)) in
  let ch := IZR (height (canvas r)) in
  let selW := Rabs (offsetX e - px start) in
  let selH := Rabs (offsetY e - py start) in
  let midX := (px start + offsetX e) / 2 in
  let midY := (py start + offsetY e) / 2 in
  isDragging s = true -> interactionMode s = Select ->
  selectionStart s = Some start ->
  selW > 10 -> selH > 10 -> cw <> 0 -> ch <> 0 ->
  let v := getViewport (renderer (mouseup rev e s)) in
  vzoom v = zoom r * Rmin (cw / selW) (ch / selH)
  /\ x v = vx (Spec.screenToComplex (viewportX r) (viewportY r) (zoom r)
                 cw ch midX midY)
  /\ y v = vy (Spec.screenToComplex (viewportX r) (viewportY r) (zoom r)
                 cw ch midX (ch - midY)).
Proof.
  intros r cw ch selW selH midX midY Hd Hm Hs HW HH Hcw Hch v.
  unfold v, mouseup. rewrite Hs, Hd, Hm. cbn [isSelect andb].
  rewrite (proj2 (Rgtb_true_iff _ _)) by exact HW.
  rewrite (proj2 (Rgtb_true_iff _ _)) by exact HH.
  cbn [andb renderer withDragging withSelectionStart].
  rewrite zoomToSelection_viewport. cbn [x y vzoom].
  fold r cw ch selW selH.
  unfold Spec.screenToComplex. cbn [vx vy]. fold midX midY.
  split; [reflexivity|].
  split; field_but (zoom r); repeat split; assumption.
Qed.

End Selection.

(** ** The claims on selection and on the screen-to-complex conversions *)

(** C4, as [zoomToSelection] contradicts it.  On the 800 by 600 canvas
    with the default view, a selection dragged from (300, 100) to
    (500, 200) is above the dead zone; its midpoint (400, 150) lies in the
    upper half of the canvas, where the coordinate mapper (and the frame on
    screen) has the imaginary part [0.5].  Pointer-up sets the zoom to
    [1 * min(800/200, 600/100) = 4] and the real part of the centre to the
    mapper's [-0.5], but the imaginary part to [-0.5]: the conversion in
    [zoomToSelection] does not invert the screen Y axis. *)
Theorem C4_selection_centre_not_inverted (rev : WebGL.Revision) :
  let s := selecting {| Index.px := 300; Index.py := 100 |} (defaultView 1) in
  let v := WebGL.getViewport
             (Index.renderer (Index.mouseup rev (pointerAt 500 200 0) s)) in
  let mapped := Spec.screenToComplex (-0.5) 0 1 800 600 400 150 in
  WebGL.vzoom v = 1 * Rmin (800 / 200) (600 / 100)
  /\ WebGL.vzoom v = 4
  /\ WebGL.x v = vx mapped
  /\ WebGL.y v = -0.5
  /\ vy mapped = 0.5
  /\ vy (shownAt (defaultView 1) 400 150) = 0.5.
Proof.
  intros s v mapped.
  assert (HW : Rabs (500 - 300) = 200) by (rewrite Rabs_pos_eq; lra).
  assert (HH : Rabs (200 - 100) = 100) by (rewrite Rabs_pos_eq; lra).
  assert (Hmin : Rmin (800 / 200) (600 / 100) = 4)
    by (rewrite Rmin_left; lra).
  assert (Hv : v = {| WebGL.x := -0.5 - 2 / 1 * (800 / 600) / 2
                        + (300 + 500) / 2 * (2 / 1 * (800 / 600) / 800);
                      WebGL.y := 0 - 2 / 1 / 2
                        + (100 + 200) / 2 * (2 / 1 / 600);
                      WebGL.vzoom := 1 * Rmin (800 / 200) (600 / 100) |}).
  { unfold v, s, Index.mouseup, selecting, pointerAt.
    cbn [Index.selectionStart Index.isDragging Index.interactionMode
         Index.isSelect andb Index.offsetX Index.offsetY Index.px Index.py].
    rewrite HW, HH.
    rewrite !(proj2 (Rgtb_true_iff _ 10)) by lra.
    cbn [andb Index.renderer Index.withDragging Index.withSelectionStart].
    rewrite zoomToSelection_viewport.
    cbn [Index.renderer defaultView canvas800 WebGL.canvas WebGL.width
         WebGL.height WebGL.viewportX WebGL.viewportY WebGL.zoom].
    rewrite HW, HH. reflexivity. }
  rewrite Hv. cbn [WebGL.x WebGL.y WebGL.vzoom]. rewrite Hmin.
  unfold mapped, Spec.screenToComplex, shownAt, fragmentAt,
    WebGL.framePixel, WebGL.pixel, vadd, vdiv.
  cbn [vx vy defaultView canvas800 WebGL.canvas WebGL.width WebGL.height
       WebGL.viewportX WebGL.viewportY WebGL.zoom].
  repeat split; lra.
Qed.

(** The tooltip's conversion and the conversion of [zoomToSelection] give a
    screen position the point that the coordinate mapper gives to its
    mirror image in the horizontal centre line. *)
Lemma tooltip_screenToComplex_mirrored (s : Index.MandelbrotSet) (sx sy : R) :
  let r := Index.renderer s in
  let cw := IZR (WebGL.width (WebGL.canvas r)) in
  let ch := IZR (WebGL.height (WebGL.canvas r)) in
  cw <> 0 -> ch <> 0 ->
  IndexTooltip.screenToComplex s sx sy
  = Spec.screenToComplex (WebGL.viewportX r) (WebGL.viewportY r)
      (WebGL.zoom r) cw ch sx (ch - sy).
Proof.
  intros r cw ch Hcw Hch.
  unfold IndexTooltip.screenToComplex, Spec.screenToComplex.
  cbn [WebGL.getViewport WebGL.x WebGL.y WebGL.vzoom]. fold r cw ch.
  f_equal; field_but (WebGL.zoom r); repeat split; assumption.
Qed.

(** C6, as the tooltip's [screenToComplex] contradicts it (and, by the
    same omission, [zoomToSelection], see C4).  On the 800 by 600 canvas
    with the default view the top of the canvas shows imaginary part [1]
    and the bottom [-1]: so says the coordinate mapper, and so does the
    shader.  The tooltip's conversion returns [-1] at the top ([y = 0])
    and [1] at the bottom ([y = 600]). *)
Theorem C6_tooltip_imaginary_not_inverted :
  let s := idle (defaultView 1) in
  vy (IndexTooltip.screenToComplex s 400 0) = -1
  /\ vy (IndexTooltip.screenToComplex s 400 600) = 1
  /\ vy (Spec.screenToComplex (-0.5) 0 1 800 600 400 0) = 1
  /\ vy (Spec.screenToComplex (-0.5) 0 1 800 600 400 600) = -1
  /\ vy (shownAt (defaultView 1) 400 0) = 1
  /\ vy (shownAt (defaultView 1) 400 600) = -1.
Proof.
  intros s.
  unfold s, idle, IndexTooltip.screenToComplex, Spec.screenToComplex,
    shownAt, fragmentAt, WebGL.framePixel, WebGL.pixel, vadd, vdiv.
  cbn [vx vy Index.renderer defaultView canvas800 WebGL.getViewport
       WebGL.canvas WebGL.width WebGL.height WebGL.x WebGL.y WebGL.vzoom
       WebGL.viewportX WebGL.viewportY WebGL.zoom].
  repeat split; lra.
Qed.

(** ** Zooming with the wheel *)

(** The wheel listener of the latest [index.ts] keeps the point under the
    pointer: with the aspect ratio it reads from the display size, the
    frame shows at the pointer's fragment the point it showed before. *)
Lemma tooltip_wheel_keeps_pointer (rev : WebGL.Revision)
      (rect : Index.DOMRect) (e : Index.MouseEvent)
      (s : Index.MandelbrotSet) :
  let r := Index.renderer s in
  let r' := Index.renderer (IndexTooltip.wheel rev rect e s) in
  let cw := IZR (WebGL.clientWidth (WebGL.canvas r)) in
  let ch := IZR (WebGL.clientHeight (WebGL.canvas r)) in
  let relativeX := (Index.clientX e - Index.left rect)
                   / Index.rectWidth rect in
  let relativeY := (Index.clientY e - Index.top rect)
                   / Index.rectHeight rect in
  let frag := Vec2 (relativeX * cw) ((1 - relativeY) * ch) in
  cw <> 0 -> ch <> 0 ->
  WebGL.zoom r'
  = WebGL.zoom r * (if Rgtb (Index.deltaY e) 0 then 0.8 else 1.2)
  /\ WebGL.pixel (Vec2 (WebGL.viewportX r') (WebGL.viewportY r'))
                 (WebGL.zoom r') (Vec2 cw ch) frag
     = WebGL.pixel (Vec2 (WebGL.viewportX r) (WebGL.viewportY r))
                   (WebGL.zoom r) (Vec2 cw ch) frag.
Proof.
  intros r r' cw ch relativeX relativeY frag Hcw Hch.
  pose proof (update_both_viewport rev) as Hv.
  unfold r', IndexTooltip.wheel. cbn [Index.renderer Index.withRenderer].
  match goal with
  | |- context [WebGL.updateZoom rev ?z (WebGL.updateViewport rev ?a ?b ?q)] =>
      specialize (Hv a b z q);
      set (rr := WebGL.updateZoom rev z (WebGL.updateViewport rev a b q))
        in *
  end.
  rewrite (f_equal WebGL.x Hv : WebGL.viewportX rr = _).
  rewrite (f_equal WebGL.y Hv : WebGL.viewportY rr = _).
  rewrite (f_equal WebGL.vzoom Hv : WebGL.zoom rr = _).
  cbn [WebGL.getViewport WebGL.x WebGL.y WebGL.vzoom]. fold r cw ch.
  set (f := if Rgtb (Index.deltaY e) 0 then 0.8 else 1.2).
  split; [reflexivity|].
  unfold WebGL.pixel, frag, vadd, vdiv. cbn [vx vy].
  fold relativeX relativeY.
  unfold Q2R; cbn [QArith_base.Qnum QArith_base.Qden]; unfold Rdiv.
  generalize (/ WebGL.zoom r) (/ (WebGL.zoom r * f)). intros iz iz'.
  f_equal; field; repeat split; assumption.
Qed.

(** The wheel listener of [src/index.ts] leaves the centre of the viewport
    where it is when the pointer is at the centre of the canvas, whatever
    the zoom and the direction of the scroll. *)
Lemma wheel_at_centre (rev : WebGL.Revision) (e : Index.MouseEvent)
      (s : Index.MandelbrotSet) (rect : Index.DOMRect) :
  let r := Index.renderer s in
  let cw := IZR (WebGL.width (WebGL.canvas r)) in
  let ch := IZR (WebGL.height (WebGL.canvas r)) in
  cw <> 0 -> ch <> 0 ->
  Index.clientX e - Index.left rect = cw / 2 ->
  Index.clientY e - Index.top rect = ch / 2 ->
  WebGL.getViewport (Index.renderer (Index.wheel rev rect e s))
  = {| WebGL.x := WebGL.viewportX r; WebGL.y := WebGL.viewportY r;
       WebGL.vzoom := WebGL.zoom r
                      * (if Rgtb (Index.deltaY e) 0 then 0.8 else 1.2) |}.
Proof.
  intros r cw ch Hcw Hch HX HY.
  unfold Index.wheel. cbn [Index.renderer Index.withRenderer].
  rewrite update_both_viewport.
  cbn [WebGL.getViewport WebGL.x WebGL.y WebGL.vzoom]. fold r cw ch.
  rewrite HX, HY.
  set (f := if Rgtb (Index.deltaY e) 0 then 0.8 else 1.2).
  replace (cw / 2 / cw * 2 - 1) with 0 by (field; assumption).
  replace (ch / 2 / ch * -2 + 1) with 0 by (field; assumption).
  f_equal; ring.
Qed.

(** C3, as the wheel listener of [src/index.ts] contradicts it.  On the
    800 by 600 canvas with the default view, the pointer at the middle of
    the top edge, screen position (400, 0), is over the point [-0.5 + 1i].
    Scrolling up there multiplies the zoom by 1.2 and moves the centre to
    [-0.5 + (1/3)i]; the next frame shows [-0.5 + (7/6)i] under the
    pointer.  The listener measures the plane as [4 / zoom] high and wide,
    the renderer as [2 / zoom] high. *)
Theorem C3_ndc_wheel_moves_point_under_pointer (rev : WebGL.Revision) :
  let s := idle (defaultView 1) in
  let s' := Index.wheel rev rect800 (pointerAt 400 0 (-100)) s in
  shownAt (Index.renderer s) 400 0 = Vec2 (-0.5) 1
  /\ WebGL.getViewport (Index.renderer s')
     = {| WebGL.x := -0.5; WebGL.y := 1 / 3; WebGL.vzoom := 1.2 |}
  /\ shownAt (Index.renderer s') 400 0 = Vec2 (-0.5) (7 / 6).
Proof.
  intros s s'.
  assert (Hs' : Index.renderer s'
                = WebGL.setViewport (defaultView 1)
                    (-0.5 + (400 - 0) / 800 * 2 - 1
                     - ((400 - 0) / 800 * 2 - 1) * (2 / (1 * 1.2)))
                    (0 + ((0 - 0) / 600 * -2 + 1) * (2 / 1)
                     - ((0 - 0) / 600 * -2 + 1) * (2 / (1 * 1.2)))
                    (1 * 1.2)).
  { unfold s', s, Index.wheel, idle, pointerAt, rect800.
    cbn [Index.renderer Index.withRenderer Index.clientX Index.clientY
         Index.deltaY Index.left Index.top WebGL.getViewport
         WebGL.x WebGL.y WebGL.vzoom].
    cbn [defaultView canvas800 WebGL.canvas WebGL.width WebGL.height
         WebGL.viewportX WebGL.viewportY WebGL.zoom].
    rewrite (proj2 (Rgtb_false_iff (-100) 0)) by lra.
    rewrite update_both_native;
      [|cbn [defaultView WebGL.zoom]; lra|lra|reflexivity|reflexivity].
    unfold WebGL.setViewport. f_equal; lra. }
  rewrite Hs'.
  unfold shownAt, fragmentAt, WebGL.framePixel, WebGL.pixel, vadd, vdiv,
    WebGL.getViewport, WebGL.setViewport, s, idle.
  cbn [vx vy Index.renderer defaultView canvas800 WebGL.canvas WebGL.width
       WebGL.height WebGL.viewportX WebGL.viewportY WebGL.zoom].
  split; [f_equal; lra|]. split; f_equal; lra.
Qed.

(** * Further properties of the code *)

(** ** The evaluators, case by case *)

(** Within any number of steps a point either stays within the radius
    or has a first step that leaves it. *)
Lemma bounded_or_escapes (c : vec2) (m : nat) :
  bounded_upto c m \/ exists n, (n < m)%nat /\ escapes_at c n.
Proof.
  induction m as [|m [IH|[n [Hn He]]]].
  - left. intros k Hk. lia.
  - destruct (Rle_dec (dot (orbit c (S m)) (orbit c (S m))) 4) as [Hle|Hgt].
    + left. intros k Hk.
      destruct (Nat.eq_dec k (S m)) as [->|Hne]; [exact Hle|].
      apply IH. lia.
    + right. exists m. split; [lia|]. split; [exact IH|].
      apply Rnot_le_gt. exact Hgt.
  - right. exists n. split; [lia|exact He].
Qed.

Lemma orbit_1_dot (c : vec2) : dot (orbit c 1) (orbit c 1) = dot c c.
Proof.
  cbn [orbit]. unfold zNext, zSquared, vadd, dot. cbn [vx vy]. ring.
Qed.

Lemma escape_value_below (c : vec2) (n : nat) :
  escapes_at c n -> smooth (INR n) (orbit c (S n)) < INR n + 1.
Proof.
  intros [_ He]. unfold smooth.
  generalize (nu_escaped_pos _ He). lra.
Qed.

(** X1: in [fragment.glsl] the loop counter ends below the cap only at an
    escape: the smoothing block then runs on the [z] of the first step
    with [|z|^2 > 4], and both of its logarithms have arguments above 1
    (so that the value is below the number of steps performed). *)
Theorem X1_fragment_smoothing_only_at_escape (c : vec2) (m : Z)
        (r : LoopResult) :
  Fragment.iterate c m = Some r ->
  count r < IZR m ->
  escapes_at c (Nat.pred (steps r))
  /\ zlast r = orbit c (steps r)
  /\ count r = INR (Nat.pred (steps r))
  /\ dot (zlast r) (zlast r) > 4
  /\ log_zn (zlast r) / ln 2 > 1
  /\ Fragment.smoothing m r < INR (steps r).
Proof.
  intros Hrun Hlt.
  destruct (Z_lt_le_dec m 0) as [Hneg|Hpos].
  - unfold Fragment.iterate in Hrun.
    replace (Z.to_nat m) with 0%nat in Hrun by lia.
    cbn [Fragment.for_loop] in Hrun.
    rewrite (proj2 (Rltb_false_iff 0 (IZR m))) in Hrun
      by (apply IZR_le; lia).
    injection Hrun as <-. cbn [count] in Hlt. apply IZR_lt in Hneg. lra.
  - destruct (bounded_or_escapes c (Z.to_nat m)) as [Hb|[n [Hn He]]].
    + destruct (Fragment_evaluate_bounded c m Hpos Hb) as [Hrun' _].
      rewrite Hrun' in Hrun. injection Hrun as <-. cbn [count] in Hlt. lra.
    + assert (Hn' : (Z.of_nat n < m)%Z) by lia.
      destruct (Fragment_evaluate_escape c m n He Hn') as [Hrun' _].
      rewrite Hrun' in Hrun. injection Hrun as <-.
      cbn [steps zlast count Nat.pred].
      assert (Hd : dot (orbit c (S n)) (orbit c (S n)) > 4)
        by (destruct He as [_ Hd]; exact Hd).
      repeat split; try assumption; try (destruct He; assumption).
      * apply log_zn_escaped. exact Hd.
      * unfold Fragment.smoothing. cbn [count zlast].
        rewrite (proj2 (Rltb_true_iff _ _))
          by (rewrite INR_IZR_INZ; apply IZR_lt; exact Hn').
        rewrite S_INR. apply escape_value_below. exact He.
Qed.

Lemma X1_fragment_smoothing_only_at_escape_witness :
  escapes_at (Vec2 3 0) 0
  /\ dot (orbit (Vec2 3 0) 1) (orbit (Vec2 3 0) 1) > 4.
Proof.
  assert (Hn : (Z.of_nat 0 < 2)%Z) by (simpl; lia).
  assert (Hrun : Fragment.iterate (Vec2 3 0) 2
                 = Some (Loop (INR 0) (orbit (Vec2 3 0) 1) 1))
    by apply (Fragment_evaluate_escape (Vec2 3 0) 2 0 escapes_at_3 Hn).
  assert (Hlt : count (Loop (INR 0) (orbit (Vec2 3 0) 1) 1) < IZR 2)
    by (cbn [count INR]; lra).
  destruct (X1_fragment_smoothing_only_at_escape (Vec2 3 0) 2 _ Hrun Hlt)
    as [He [_ [_ [Hd _]]]].
  split; [exact He|exact Hd].
Defined.

(** X2: [fragment.glsl] returns exactly the cap if and only if none of
    the first [maxIterations] steps leaves the radius. *)
Theorem X2_fragment_cap_iff_bounded (c : vec2) (m : Z) :
  (0 <= m)%Z ->
  (Fragment.evaluate c m = Some (IZR m) <-> bounded_upto c (Z.to_nat m)).
Proof.
  intros Hm. split.
  - intros Hval.
    destruct (bounded_or_escapes c (Z.to_nat m)) as [Hb|[n [Hn He]]];
      [exact Hb|exfalso].
    assert (Hn' : (Z.of_nat n < m)%Z) by lia.
    destruct (Fragment_evaluate_escape c m n He Hn') as [_ Hval'].
    rewrite Hval' in Hval.
    assert (Hv : smooth (INR n) (orbit c (S n)) = IZR m) by congruence.
    generalize (escape_value_below c n He). rewrite Hv.
    assert (H1 : IZR (Z.of_nat n + 1) <= IZR m) by (apply IZR_le; lia).
    rewrite plus_IZR, <- INR_IZR_INZ in H1. lra.
  - intros Hb. apply (Fragment_evaluate_bounded c m Hm Hb).
Qed.

Lemma X2_fragment_cap_iff_bounded_witness :
  Fragment.evaluate (Vec2 0 1) 100 = Some (IZR 100).
Proof.
  assert (Hm : (0 <= 100)%Z) by lia.
  apply (proj2 (X2_fragment_cap_iff_bounded (Vec2 0 1) 100 Hm)).
  apply orbit_i_bounded.
Defined.

(** ** The range of the smoothed value *)

(** One step from a point of the disc of radius 2, with [c] in that disc,
    ends in the disc of radius 6. *)
Lemma zNext_within_36 (c z : vec2) :
  dot z z <= 4 -> dot c c <= 4 -> dot (zNext c z) (zNext c z) <= 36.
Proof.
  destruct c as [a b], z as [p q].
  unfold zNext, zSquared, vadd, dot. cbn [vx vy]. intros Hz Hc.
  assert (Hsq : (p * p - q * q) * (p * p - q * q)
                + (2 * p * q) * (2 * p * q) <= 16).
  { replace ((p * p - q * q) * (p * p - q * q) + (2 * p * q) * (2 * p * q))
      with ((p * p + q * q) * (p * p + q * q)) by ring.
    assert (H0 : 0 <= p * p + q * q) by nra. nra. }
  assert (H1 := Rle_0_sqr (p * p - q * q - 2 * a)).
  assert (H2 := Rle_0_sqr (2 * p * q - 2 * b)).
  unfold Rsqr in H1, H2. nra.
Qed.

Lemma ln_16 : ln 16 = 4 * ln 2.
Proof.
  replace 16 with (2 ^ 4) by lra. rewrite ln_pow by lra. simpl INR. lra.
Qed.

Lemma ln_256 : ln 256 = 8 * ln 2.
Proof.
  replace 256 with (2 ^ 8) by lra. rewrite ln_pow by lra. simpl INR. lra.
Qed.

(** Above the escape radius the smoothing term exceeds 1 exactly when
    [|z|^2 > 16], and it stays below 2 while [|z|^2 < 256]. *)
Lemma nu_gt_1_iff (z : vec2) : dot z z > 4 -> (nu z > 1 <-> dot z z > 16).
Proof.
  intros Hd.
  assert (H2 := ln_2_pos). assert (H16 := ln_16).
  assert (Hr := log_zn_escaped z Hd).
  unfold nu.
  assert (Heq : ln (log_zn z / ln 2) / ln 2 > 1
                <-> ln (log_zn z / ln 2) > ln 2).
  { split; intros H.
    - apply Rmult_lt_reg_r with (/ ln 2);
        [apply Rinv_0_lt_compat; exact H2|].
      rewrite Rinv_r by lra. exact H.
    - apply Rmult_lt_reg_r with (ln 2); [exact H2|].
      unfold Rdiv. rewrite Rmult_assoc, Rinv_l by lra. lra. }
  rewrite Heq. clear Heq.
  assert (Hratio : log_zn z / ln 2 > 2 <-> ln (dot z z) > ln 16).
  { unfold log_zn. rewrite H16. split; intros H.
    - assert (H' : ln (dot z z) / 2 / ln 2 * ln 2 > 2 * ln 2)
        by (apply Rmult_gt_compat_r; assumption).
      unfold Rdiv in H'. rewrite Rmult_assoc, Rinv_l in H' by lra. lra.
    - apply Rmult_lt_reg_r with (ln 2); [exact H2|].
      unfold Rdiv. rewrite Rmult_assoc, Rinv_l by lra. lra. }
  split; intros H.
  - apply ln_lt_inv; [lra|lra|]. apply Hratio.
    apply ln_lt_inv; [lra|lra|exact H].
  - apply ln_increasing; [lra|]. apply Hratio.
    apply ln_increasing; lra.
Qed.

Lemma nu_lt_2 (z : vec2) : 4 < dot z z < 256 -> nu z < 2.
Proof.
  intros [Hd Hhi].
  assert (H2 := ln_2_pos). assert (H256 := ln_256).
  assert (Hr := log_zn_escaped z Hd).
  assert (Hln : ln (dot z z) < ln 256) by (apply ln_increasing; lra).
  assert (Hratio : log_zn z / ln 2 < 4).
  { unfold log_zn. apply Rmult_lt_reg_r with (ln 2); [exact H2|].
    unfold Rdiv. rewrite Rmult_assoc, Rinv_l by lra. lra. }
  assert (H4 : ln 4 = 2 * ln 2).
  { replace 4 with (2 * 2) by lra. rewrite ln_mult by lra. lra. }
  assert (Hln2 : ln (log_zn z / ln 2) < ln 4)
    by (apply ln_increasing; lra).
  unfold nu. apply Rmult_lt_reg_r with (ln 2); [exact H2|].
  unfold Rdiv. rewrite Rmult_assoc, Rinv_l by lra. lra.
Qed.

(** After the first step the value of an escape at the step of index [n]
    is above [n - 1]: the escaping [z] is within the disc of radius 6. *)
Lemma escape_value_above (c : vec2) (n : nat) :
  escapes_at c n -> (1 <= n)%nat ->
  INR n - 1 < smooth (INR n) (orbit c (S n)).
Proof.
  intros [Hb Hd] H1.
  assert (Hc : dot c c <= 4).
  { rewrite <- orbit_1_dot. apply Hb. lia. }
  assert (Hz : dot (orbit c n) (orbit c n) <= 4) by (apply Hb; lia).
  assert (H36 := zNext_within_36 c (orbit c n) Hz Hc).
  change (zNext c (orbit c n)) with (orbit c (S n)) in H36.
  assert (Hnu : nu (orbit c (S n)) < 2) by (apply nu_lt_2; lra).
  unfold smooth. lra.
Qed.

(** X3: in [fragment.glsl] the value of a point that escapes at the step
    of index [n] is below [n + 1], hence below the cap, and for [n >= 1]
    it is above [n - 1], hence not negative. *)
Theorem X3_fragment_escape_value_range (c : vec2) (m : Z) (n : nat) :
  escapes_at c n ->
  (Z.of_nat n < m)%Z ->
  exists v : R,
    Fragment.evaluate c m = Some v
    /\ v < INR n + 1
    /\ v < IZR m
    /\ ((1 <= n)%nat -> INR n - 1 < v).
Proof.
  intros He Hn.
  exists (smooth (INR n) (orbit c (S n))).
  split; [apply (Fragment_evaluate_escape c m n He Hn)|].
  assert (Hlt := escape_value_below c n He).
  assert (Hm : INR n + 1 <= IZR m).
  { rewrite INR_IZR_INZ, <- plus_IZR. apply IZR_le. lia. }
  split; [exact Hlt|]. split; [lra|].
  intros H1. apply escape_value_above; assumption.
Qed.

Lemma X3_fragment_escape_value_range_witness :
  exists v : R, Fragment.evaluate (Vec2 3 0) 2 = Some v /\ v < IZR 2.
Proof.
  assert (Hn : (Z.of_nat 0 < 2)%Z) by (simpl; lia).
  destruct (X3_fragment_escape_value_range (Vec2 3 0) 2 0 escapes_at_3 Hn)
    as [v [Hv [_ [Hlt _]]]].
  exists v. split; [exact Hv|exact Hlt].
Defined.

(** X4: [fragment.glsl] returns a negative value exactly for the points
    with [|c|^2 > 16]: they escape at the first step with a smoothing term
    above 1. *)
Theorem X4_fragment_negative_iff_far (c : vec2) (m : Z) :
  (1 <= m)%Z ->
  ((exists v : R, Fragment.evaluate c m = Some v /\ v < 0)
   <-> dot c c > 16).
Proof.
  intros Hm. split.
  - intros [v [Hv Hneg]].
    destruct (bounded_or_escapes c (Z.to_nat m)) as [Hb|[n [Hn He]]].
    + assert (Hm0 : (0 <= m)%Z) by lia.
      destruct (Fragment_evaluate_bounded c m Hm0 Hb) as [_ Hv'].
      assert (Hvm : v = IZR m) by congruence.
      assert (H0 : 0 <= IZR m) by (apply IZR_le; lia). lra.
    + assert (Hn' : (Z.of_nat n < m)%Z) by lia.
      destruct (Fragment_evaluate_escape c m n He Hn') as [_ Hs].
      assert (Hvs : v = smooth (INR n) (orbit c (S n))) by congruence.
      destruct n as [|n].
      * destruct He as [_ Hd]. rewrite <- orbit_1_dot.
        apply (nu_gt_1_iff _ Hd).
        rewrite Hvs in Hneg. unfold smooth in Hneg. cbn [INR] in Hneg. lra.
      * assert (H1 : INR (S n) - 1 < v)
          by (rewrite Hvs; apply escape_value_above; [exact He|lia]).
        rewrite S_INR in H1. generalize (pos_INR n). lra.
  - intros Hfar.
    assert (He : escapes_at c 0).
    { split; [intros k Hk; lia|]. rewrite orbit_1_dot. lra. }
    assert (Hn : (Z.of_nat 0 < m)%Z) by (simpl; lia).
    exists (smooth (INR 0) (orbit c 1)).
    split; [apply (Fragment_evaluate_escape c m 0 He Hn)|].
    destruct He as [_ Hd].
    assert (Hnu : nu (orbit c 1) > 1).
    { apply (nu_gt_1_iff _ Hd). rewrite orbit_1_dot. exact Hfar. }
    unfold smooth. cbn [INR]. lra.
Qed.

Lemma X4_fragment_negative_iff_far_witness :
  exists v : R, Fragment.evaluate (Vec2 5 0) 100 = Some v /\ v < 0.
Proof.
  assert (Hm : (1 <= 100)%Z) by lia.
  apply (proj2 (X4_fragment_negative_iff_far (Vec2 5 0) 100 Hm)).
  unfold dot. cbn [vx vy]. lra.
Defined.

(** ** The colours *)

Lemma mod_2_range (a : R) : 0 <= Shading.mod_ a 2 < 2.
Proof.
  unfold Shading.mod_. generalize (Zfloor_bound (a / 2)). lra.
Qed.

(** The three channels of [hsl2rgb] are [m], [m + x] and [m + c] in some
    order, with [0 <= x <= c]. *)
Lemma hsl2rgb_channels (h s l : R) :
  0 <= s <= 1 -> 0 <= l <= 1 ->
  let c := (1 - Rabs (2 * l - 1)) * s in
  let m := l - c / 2 in
  let v := Shading.hsl2rgb h s l in
  0 <= c /\ 0 <= m /\ m + c <= 1
  /\ (m <= Shading.red v <= m + c)
  /\ (m <= Shading.green v <= m + c)
  /\ (m <= Shading.blue v <= m + c)
  /\ (Shading.red v = m \/ Shading.green v = m \/ Shading.blue v = m)
  /\ (Shading.red v = m + c \/ Shading.green v = m + c
      \/ Shading.blue v = m + c).
Proof.
  intros Hs Hl c m v.
  assert (HA : 0 <= 1 - Rabs (2 * l - 1) /\ 1 - Rabs (2 * l - 1) <= 2 * l
               /\ 1 - Rabs (2 * l - 1) <= 2 - 2 * l).
  { unfold Rabs. destruct (Rcase_abs (2 * l - 1)); lra. }
  assert (Hc : 0 <= c /\ c <= 2 * l /\ c <= 2 - 2 * l) by (unfold c; nra).
  set (x := c * (1 - Rabs (Shading.mod_ (h / 60) 2 - 1))).
  assert (Hx : 0 <= x <= c).
  { assert (Hm := mod_2_range (h / 60)).
    assert (HB : 0 <= 1 - Rabs (Shading.mod_ (h / 60) 2 - 1) <= 1).
    { unfold Rabs. destruct (Rcase_abs (Shading.mod_ (h / 60) 2 - 1)); lra. }
    unfold x. nra. }
  assert (Hv : v = Shading.vadd3
                 (if Rltb h 60 then Shading.Vec3 c x 0
                  else if Rltb h 120 then Shading.Vec3 x c 0
                  else if Rltb h 180 then Shading.Vec3 0 c x
                  else if Rltb h 240 then Shading.Vec3 0 x c
                  else if Rltb h 300 then Shading.Vec3 x 0 c
                  else Shading.Vec3 c 0 x)
                 (Shading.Vec3 m m m)) by reflexivity.
  rewrite Hv. unfold m.
  repeat match goal with |- context [Rltb ?a ?b] => destruct (Rltb a b) end;
    unfold Shading.vadd3;
    cbn [Shading.red Shading.green Shading.blue];
    repeat split; try lra; auto; try (left; lra); try (right; left; lra);
    try (right; right; lra).
Qed.

(** X5: [hsl2rgb] stays in the unit cube and preserves lightness and
    chroma: for saturation and lightness in [0, 1] and any hue, every
    channel is in [0, 1], the mean of the largest and the smallest channel
    is [l], and their difference is [(1 - |2l - 1|) * s]. *)
Theorem X5_hsl2rgb_lightness_and_chroma (h s l : R) :
  0 <= s <= 1 -> 0 <= l <= 1 ->
  let v := Shading.hsl2rgb h s l in
  let hi := Rmax (Rmax (Shading.red v) (Shading.green v)) (Shading.blue v) in
  let lo := Rmin (Rmin (Shading.red v) (Shading.green v)) (Shading.blue v) in
  (0 <= Shading.red v <= 1)
  /\ (0 <= Shading.green v <= 1)
  /\ (0 <= Shading.blue v <= 1)
  /\ (hi + lo) / 2 = l
  /\ hi - lo = (1 - Rabs (2 * l - 1)) * s.
Proof.
  intros Hs Hl v hi lo.
  destruct (hsl2rgb_channels h s l Hs Hl)
    as [Hc [Hm [Hmc [Hr [Hg [Hb [Hmin Hmax]]]]]]].
  subst hi lo v. cbv zeta in *.
  set (v := Shading.hsl2rgb h s l) in *.
  set (c := (1 - Rabs (2 * l - 1)) * s) in *.
  set (hi := Rmax (Rmax (Shading.red v) (Shading.green v)) (Shading.blue v)).
  set (lo := Rmin (Rmin (Shading.red v) (Shading.green v)) (Shading.blue v)).
  set (r := Shading.red v) in *. set (g := Shading.green v) in *.
  set (b := Shading.blue v) in *.
  assert (Hhi : hi = l - c / 2 + c).
  { unfold hi.
    assert (H1 := Rmax_l (Rmax r g) b). assert (H2 := Rmax_r (Rmax r g) b).
    assert (H3 := Rmax_l r g). assert (H4 := Rmax_r r g).
    assert (H5 : Rmax (Rmax r g) b <= l - c / 2 + c)
      by (apply Rmax_lub; [apply Rmax_lub|]; lra).
    destruct Hmax as [H|[H|H]]; lra. }
  assert (Hlo : lo = l - c / 2).
  { unfold lo.
    assert (H1 := Rmin_l (Rmin r g) b). assert (H2 := Rmin_r (Rmin r g) b).
    assert (H3 := Rmin_l r g). assert (H4 := Rmin_r r g).
    assert (H5 : l - c / 2 <= Rmin (Rmin r g) b)
      by (apply Rmin_glb; [apply Rmin_glb|]; lra).
    destruct Hmin as [H|[H|H]]; lra. }
  rewrite Hhi, Hlo. repeat split; lra.
Qed.

Lemma X5_hsl2rgb_lightness_and_chroma_witness :
  0 <= Shading.red (Shading.hsl2rgb 200 1 0.5) <= 1.
Proof.
  assert (Hs : 0 <= 1 <= 1) by lra.
  assert (Hl : 0 <= 0.5 <= 1) by lra.
  destruct (X5_hsl2rgb_lightness_and_chroma 200 1 0.5 Hs Hl) as [Hr _].
  exact Hr.
Defined.

Lemma normalized_range (iteration : R) (m : Z) :
  0 <= iteration -> iteration < IZR m -> 0 <= iteration / IZR m < 1.
Proof.
  intros H0 Hlt.
  assert (Hm : 0 < IZR m) by lra.
  split.
  - apply Rmult_le_pos; [exact H0|].
    apply Rlt_le, Rinv_0_lt_compat. exact Hm.
  - apply Rmult_lt_reg_r with (IZR m); [exact Hm|].
    unfold Rdiv. rewrite Rmult_assoc, Rinv_l by lra. lra.
Qed.

(** X6: for a value that is not negative, [getColor] returns a colour in
    the unit cube with opacity 1, in every colour scheme and for every
    cap; at or above the cap the colour is black. *)
Theorem X6_getColor_in_unit_cube (scheme : Z) (iteration : R) (m : Z) :
  0 <= iteration ->
  let col := Shading.getColor scheme iteration m in
  (0 <= Shading.c_r col <= 1)
  /\ (0 <= Shading.c_g col <= 1)
  /\ (0 <= Shading.c_b col <= 1)
  /\ Shading.c_a col = 1
  /\ (iteration >= IZR m -> col = Shading.Vec4 0 0 0 1).
Proof.
  intros H0 col. unfold col, Shading.getColor.
  destruct (Rgeb iteration (IZR m)) eqn:Hge.
  - cbn [Shading.c_r Shading.c_g Shading.c_b Shading.c_a].
    repeat split; try lra.
  - apply Rgeb_false_iff in Hge.
    assert (Hn := normalized_range iteration m H0 Hge).
    set (n := iteration / IZR m) in *.
    assert (Hfinal : iteration >= IZR m -> False) by lra.
    destruct (scheme =? 1)%Z; [|destruct (scheme =? 2)%Z].
    + unfold Shading.vec4_of.
      cbn [Shading.c_r Shading.c_g Shading.c_b Shading.c_a
           Shading.red Shading.green Shading.blue].
      repeat split; try lra; intros; exfalso; auto.
    + cbn [Shading.c_r Shading.c_g Shading.c_b Shading.c_a].
      assert (H1 : 0 <= Rmin 1 (n * 2) <= 1).
      { unfold Rmin. destruct (Rle_dec 1 (n * 2)); lra. }
      assert (H2 : 0 <= Rmin 1 (n * 0.6) <= 1).
      { unfold Rmin. destruct (Rle_dec 1 (n * 0.6)); lra. }
      repeat split; try lra; intros; exfalso; auto.
    + assert (Hs : 0 <= 1 <= 1) by lra.
      assert (Hl : 0 <= 0.5 <= 1) by lra.
      destruct (hsl2rgb_channels (360 * n) 1 0.5 Hs Hl)
        as [Hc [Hm [Hmc [Hr [Hg [Hb _]]]]]].
      cbn zeta in *. unfold Shading.vec4_of.
      cbn [Shading.c_r Shading.c_g Shading.c_b Shading.c_a].
      repeat split; try lra; intros; exfalso; auto.
Qed.

Lemma X6_getColor_in_unit_cube_witness :
  Shading.c_a (Shading.getColor 0 7 100) = 1.
Proof.
  assert (H0 : 0 <= 7) by lra.
  destruct (X6_getColor_in_unit_cube 0 7 100 H0) as [_ [_ [_ [Ha _]]]].
  exact Ha.
Defined.

(** X7: below the cap the rainbow scheme (every scheme number but 1 and 2)
    gives a fully saturated colour of half lightness, whatever the value:
    one channel is 1 and one channel is 0. *)
Theorem X7_rainbow_fully_saturated (scheme : Z) (iteration : R) (m : Z) :
  scheme <> 1%Z -> scheme <> 2%Z ->
  iteration < IZR m ->
  let col := Shading.getColor scheme iteration m in
  (Shading.c_r col = 1 \/ Shading.c_g col = 1 \/ Shading.c_b col = 1)
  /\ (Shading.c_r col = 0 \/ Shading.c_g col = 0 \/ Shading.c_b col = 0)
  /\ Shading.c_a col = 1.
Proof.
  intros H1 H2 Hlt col. unfold col, Shading.getColor.
  rewrite (proj2 (Rgeb_false_iff _ _)) by exact Hlt.
  rewrite (proj2 (Z.eqb_neq _ _) H1), (proj2 (Z.eqb_neq _ _) H2).
  assert (Hs : 0 <= 1 <= 1) by lra.
  assert (Hl : 0 <= 0.5 <= 1) by lra.
  destruct (hsl2rgb_channels (360 * (iteration / IZR m)) 1 0.5 Hs Hl)
    as [_ [_ [_ [_ [_ [_ [Hmin Hmax]]]]]]].
  cbv zeta in Hmin, Hmax.
  assert (Habs : Rabs (2 * 0.5 - 1) = 0).
  { replace (2 * 0.5 - 1) with 0 by lra. apply Rabs_R0. }
  rewrite Habs in Hmin, Hmax.
  unfold Shading.vec4_of.
  cbn [Shading.c_r Shading.c_g Shading.c_b Shading.c_a].
  split; [|split; [|reflexivity]].
  - destruct Hmax as [H|[H|H]]; [left|right; left|right; right];
      rewrite H; lra.
  - destruct Hmin as [H|[H|H]]; [left|right; left|right; right];
      rewrite H; lra.
Qed.

Lemma X7_rainbow_fully_saturated_witness :
  Shading.c_a (Shading.getColor 0 7 100) = 1.
Proof.
  assert (H1 : 0%Z <> 1%Z) by discriminate.
  assert (H2 : 0%Z <> 2%Z) by discriminate.
  assert (Hlt : 7 < IZR 100) by lra.
  destruct (X7_rainbow_fully_saturated 0 7 100 H1 H2 Hlt) as [_ [_ Ha]].
  exact Ha.
Defined.

(** X8: in the fire scheme, for a value between 0 and the cap, blue is at
    most green and green at most red, and red is saturated from half the
    cap on. *)
Theorem X8_fire_channels_ordered (iteration : R) (m : Z) :
  0 <= iteration < IZR m ->
  let col := Shading.getColor 2 iteration m in
  Shading.c_b col <= Shading.c_g col <= Shading.c_r col
  /\ (IZR m <= 2 * iteration -> Shading.c_r col = 1).
Proof.
  intros [H0 Hlt] col. unfold col, Shading.getColor.
  rewrite (proj2 (Rgeb_false_iff _ _)) by exact Hlt.
  cbn [Z.eqb Pos.eqb].
  cbn [Shading.c_r Shading.c_g Shading.c_b].
  assert (Hn := normalized_range iteration m H0 Hlt).
  set (n := iteration / IZR m) in *.
  assert (Hhalf : IZR m <= 2 * iteration -> 1 <= n * 2).
  { intros H. unfold n.
    apply Rmult_le_reg_r with (IZR m); [lra|].
    unfold Rdiv. replace (iteration * / IZR m * 2 * IZR m)
      with (2 * iteration * (/ IZR m * IZR m)) by ring.
    rewrite Rinv_l by lra. lra. }
  unfold Rmin.
  destruct (Rle_dec 1 (n * 2)); destruct (Rle_dec 1 (n * 0.6));
    repeat split; try lra; intros H; apply Hhalf in H; lra.
Qed.

Lemma X8_fire_channels_ordered_witness :
  Shading.c_r (Shading.getColor 2 60 100) = 1.
Proof.
  assert (H : 0 <= 60 < IZR 100) by lra.
  destruct (X8_fire_channels_ordered 60 100 H) as [_ Hr].
  apply Hr. lra.
Defined.

(** X9: the fragment of [fragment.glsl] for a point that stays within the
    radius for [maxIterations] steps is opaque black in every colour
    scheme. *)
Theorem X9_fragment_bounded_point_black (scheme : Z) (c : vec2) (m : Z) :
  (0 <= m)%Z ->
  bounded_upto c (Z.to_nat m) ->
  Shading.fragmentColor scheme c m = Some (Shading.Vec4 0 0 0 1).
Proof.
  intros Hm Hb. unfold Shading.fragmentColor.
  rewrite (proj2 (Fragment_evaluate_bounded c m Hm Hb)).
  cbn [option_map]. unfold Shading.getColor.
  rewrite (proj2 (Rgeb_true_iff _ _)) by lra. reflexivity.
Qed.

Lemma X9_fragment_bounded_point_black_witness :
  Shading.fragmentColor 1 (Vec2 0 1) 100 = Some (Shading.Vec4 0 0 0 1).
Proof.
  assert (Hm : (0 <= 100)%Z) by lia.
  apply (X9_fragment_bounded_point_black 1 (Vec2 0 1) 100 Hm).
  apply orbit_i_bounded.
Defined.

(** X10: in the inlined shader of [webgl-renderer.ts] a point that stays
    within the radius is smoothed with the counter at [maxIter - 1]; when
    its last [z] has [|z|^2 > 1] the smoothing term is not positive, so
    the value is at least the cap and the fragment is black all the same. *)
Theorem X10_inlined_bounded_point_black (scheme : Z) (c : vec2) (m : Z) :
  (1 <= m <= 1000)%Z ->
  bounded_upto c (Z.to_nat m) ->
  let z := orbit c (Z.to_nat m) in
  1 < dot z z ->
  WebGL.evaluate c m = Some (IZR m - nu z)
  /\ nu z <= 0
  /\ Shading.inlinedColor scheme c m = Some (Shading.Vec4 0 0 0 1).
Proof.
  intros Hm Hb z Hz.
  assert (Hd : dot z z <= 4) by (apply Hb; lia).
  assert (H2 := ln_2_pos).
  assert (Hnu : nu z <= 0).
  { unfold nu, log_zn.
    assert (H4 : ln 4 = 2 * ln 2).
    { replace 4 with (2 * 2) by lra. rewrite ln_mult by lra. lra. }
    assert (Hlo : 0 < ln (dot z z))
      by (rewrite <- ln_1; apply ln_increasing; lra).
    assert (Hhi : ln (dot z z) <= ln 4).
    { destruct Hd as [Hd|Hd]; [left; apply ln_increasing; lra|].
      rewrite Hd. lra. }
    set (t := ln (dot z z) / 2 / ln 2).
    assert (Ht : 0 < t <= 1).
    { unfold t. split.
      - apply Rdiv_lt_0_compat; lra.
      - apply Rmult_le_reg_r with (ln 2); [exact H2|].
        unfold Rdiv. rewrite Rmult_assoc, Rinv_l by lra. lra. }
    assert (Hln : ln t <= 0).
    { destruct Ht as [Ht0 [Ht1|Ht1]].
      - left. rewrite <- ln_1. apply ln_increasing; lra.
      - rewrite Ht1, ln_1. lra. }
    apply Rmult_le_reg_r with (ln 2); [exact H2|].
    unfold Rdiv. rewrite Rmult_assoc, Rinv_l by lra. lra. }
  assert (Hm' : (1 <= m <= WebGL.LOOP_BOUND)%Z)
    by (unfold WebGL.LOOP_BOUND; lia).
  destruct (WebGL_evaluate_bounded c m Hm' Hb) as [_ Hval].
  fold z in Hval.
  assert (Hv : WebGL.evaluate c m = Some (IZR m - nu z)).
  { rewrite Hval. unfold smooth. rewrite minus_IZR. f_equal. lra. }
  split; [exact Hv|]. split; [exact Hnu|].
  unfold Shading.inlinedColor. rewrite Hv. cbn [option_map].
  unfold Shading.getColor.
  rewrite (proj2 (Rgeb_true_iff _ _)) by lra. reflexivity.
Qed.

Lemma X10_inlined_bounded_point_black_witness :
  Shading.inlinedColor 0 (Vec2 0 1) 100 = Some (Shading.Vec4 0 0 0 1).
Proof.
  assert (Hm : (1 <= 100 <= 1000)%Z) by lia.
  assert (Hb : bounded_upto (Vec2 0 1) (Z.to_nat 100))
    by apply orbit_i_bounded.
  destruct (X10_inlined_bounded_point_black 0 (Vec2 0 1) 100 Hm Hb)
    as [_ [_ Hcol]].
  - change (Z.to_nat 100) with (2 * 49 + 2)%nat.
    rewrite (proj1 (orbit_i_period 49)). unfold dot. cbn [vx vy]. lra.
  - exact Hcol.
Defined.

(** X11: the pixel loop returns the index of the first term of the orbit
    outside the radius, or the cap when no term below the cap is outside:
    the count [k] is between 0 and the cap, [z] is the term of index [k],
    every earlier term is within the radius, and a count below the cap
    comes with a [z] outside it. *)
Theorem X11_calculateMandelbrot_first_outside (m : Z) (x0 y0 : R) :
  (0 <= m)%Z ->
  let c := Vec2 x0 y0 in
  exists k : nat,
    Canvas2D.run m x0 y0 = Some (Z.of_nat k, orbit c k, k)
    /\ Canvas2D.calculateMandelbrot m x0 y0 = Some (Z.of_nat k)
    /\ (Z.of_nat k <= m)%Z
    /\ (forall j, (j < k)%nat -> dot (orbit c j) (orbit c j) <= 4)
    /\ ((Z.of_nat k < m)%Z -> dot (orbit c k) (orbit c k) > 4).
Proof.
  intros Hm c.
  assert (Hrun : forall k : nat,
             (Z.of_nat k <= m)%Z ->
             (forall j, (j < k)%nat -> dot (orbit c j) (orbit c j) <= 4) ->
             Z.of_nat k = m \/ dot (orbit c k) (orbit c k) > 4 ->
             Canvas2D.run m x0 y0 = Some (Z.of_nat k, orbit c k, k)).
  { intros k Hk Hin Hstop. unfold Canvas2D.run.
    pose proof (Canvas2D_while_loop_run x0 y0 m k 0 0 (Z.to_nat m)) as Hloop.
    cbn zeta in Hloop. cbn [Nat.add] in Hloop.
    change (Z.of_nat 0) with 0%Z in Hloop.
    change (orbit (Vec2 x0 y0) 0) with (Vec2 0 0) in Hloop.
    cbn [vx vy] in Hloop.
    apply Hloop; [exact Hk| |exact Hstop|lia].
    intros j Hj. apply Hin. lia. }
  assert (Hcalc : forall k : nat,
             Canvas2D.run m x0 y0 = Some (Z.of_nat k, orbit c k, k) ->
             Canvas2D.calculateMandelbrot m x0 y0 = Some (Z.of_nat k)).
  { intros k H. unfold Canvas2D.calculateMandelbrot. rewrite H. reflexivity. }
  destruct (bounded_or_escapes c (Z.to_nat m)) as [Hb|[n [Hn [Hb He]]]].
  - exists (Z.to_nat m).
    assert (Hin : forall j, (j < Z.to_nat m)%nat ->
                            dot (orbit c j) (orbit c j) <= 4).
    { intros j Hj. destruct j; [apply orbit_0_within|]. apply Hb. lia. }
    assert (H := Hrun (Z.to_nat m) ltac:(lia) Hin ltac:(left; lia)).
    repeat split; auto; try lia.
  - exists (S n).
    assert (Hin : forall j, (j < S n)%nat ->
                            dot (orbit c j) (orbit c j) <= 4).
    { intros j Hj. destruct j; [apply orbit_0_within|]. apply Hb. lia. }
    assert (H := Hrun (S n) ltac:(lia) Hin ltac:(right; exact He)).
    repeat split; auto; try lia.
Qed.

Lemma X11_calculateMandelbrot_first_outside_witness :
  exists k : nat, Canvas2D.calculateMandelbrot 100 3 0 = Some (Z.of_nat k).
Proof.
  assert (Hm : (0 <= 100)%Z) by lia.
  destruct (X11_calculateMandelbrot_first_outside 100 3 0 Hm)
    as [k [_ [Hk _]]].
  exists k. exact Hk.
Defined.

(** ** The renderer: rendering, updates and reset *)

(** After a render the raster has the size that the display size and the
    zoom ask for; nothing else has changed. *)
Lemma render_normal (rev : WebGL.Revision) (r : WebGL.Renderer) :
  WebGL.render rev r
  = WebGL.setCanvasSize r
      (match rev with
       | WebGL.FixedResolution => WebGL.clientWidth (WebGL.canvas r)
       | WebGL.DynamicResolution =>
           Zfloor (IZR (WebGL.clientWidth (WebGL.canvas r))
                   * WebGL.calculateResolutionFactor r)
       end)
      (match rev with
       | WebGL.FixedResolution => WebGL.clientHeight (WebGL.canvas r)
       | WebGL.DynamicResolution =>
           Zfloor (IZR (WebGL.clientHeight (WebGL.canvas r))
                   * WebGL.calculateResolutionFactor r)
       end).
Proof.
  unfold WebGL.render, WebGL.resizeCanvasToDisplaySize.
  destruct rev;
    match goal with |- context [if ?b then _ else _] =>
      destruct b eqn:Hb end; try reflexivity;
    apply orb_false_iff in Hb; destruct Hb as [Hw Hh];
    apply negb_false_iff, Z.eqb_eq in Hw, Hh;
    rewrite <- Hw, <- Hh;
    destruct r as [[w h cw ch] cfg vX vY z]; reflexivity.
Qed.

Lemma render_twice (rev : WebGL.Revision) (r : WebGL.Renderer) :
  WebGL.render rev (WebGL.render rev r) = WebGL.render rev r.
Proof.
  rewrite (render_normal rev (WebGL.render rev r)).
  rewrite (render_normal rev r).
  destruct rev; reflexivity.
Qed.


Lemma updates_batched (rev : WebGL.Revision) (nx ny z : R)
      (r : WebGL.Renderer) :
  WebGL.updateZoom rev z (WebGL.updateViewport rev nx ny r)
  = WebGL.render rev (WebGL.setViewport r nx ny z)
  /\ WebGL.updateViewport rev nx ny (WebGL.updateZoom rev z r)
     = WebGL.render rev (WebGL.setViewport r nx ny z).
Proof.
  unfold WebGL.updateZoom, WebGL.updateViewport.
  rewrite !render_normal. destruct rev; split; reflexivity.
Qed.



(** X15: the frame shows the rectangle of height [2 / zoom] and width
    [2 / zoom * width / height] around the centre of the viewport: its
    lower left fragment corner, its upper right one and its middle. *)
Theorem X15_frame_shows_visible_rectangle (r : WebGL.Renderer) :
  let w := IZR (WebGL.width (WebGL.canvas r)) in
  let h := IZR (WebGL.height (WebGL.canvas r)) in
  let rangeY := 2 / WebGL.zoom r in
  let rangeX := rangeY * (w / h) in
  w <> 0 -> h <> 0 ->
  WebGL.framePixel r (Vec2 0 0)
  = Vec2 (WebGL.viewportX r - rangeX / 2) (WebGL.viewportY r - rangeY / 2)
  /\ WebGL.framePixel r (Vec2 w h)
     = Vec2 (WebGL.viewportX r + rangeX / 2) (WebGL.viewportY r + rangeY / 2)
  /\ WebGL.framePixel r (Vec2 (w / 2) (h / 2))
     = Vec2 (WebGL.viewportX r) (WebGL.viewportY r).
Proof.
  intros w h rangeY rangeX Hw Hh.
  unfold WebGL.framePixel, WebGL.pixel, vadd, vdiv, rangeX, rangeY.
  cbn [vx vy]. fold w h.
  repeat split; f_equal; field_but (WebGL.zoom r); auto.
Qed.

Lemma X15_frame_shows_visible_rectangle_witness :
  WebGL.framePixel (defaultView 1) (Vec2 (IZR 800 / 2) (IZR 600 / 2))
  = Vec2 (-0.5) 0.
Proof.
  assert (Hw : IZR (WebGL.width (WebGL.canvas (defaultView 1))) <> 0)
    by (cbn [defaultView canvas800 WebGL.canvas WebGL.width]; lra).
  assert (Hh : IZR (WebGL.height (WebGL.canvas (defaultView 1))) <> 0)
    by (cbn [defaultView canvas800 WebGL.canvas WebGL.height]; lra).
  destruct (X15_frame_shows_visible_rectangle (defaultView 1) Hw Hh)
    as [_ [_ Hmid]].
  exact Hmid.
Defined.

(** ** Panning *)

(** On a rendered state, a state that a render leaves as it is, [pan]
    changes the centre of the viewport and nothing else. *)
Lemma pan_rendered (rev : WebGL.Revision) (dx dy : R) (r : WebGL.Renderer) :
  WebGL.render rev r = r ->
  WebGL.pan rev dx dy r
  = WebGL.setViewport r
      (WebGL.viewportX r
       - dx * (3 / WebGL.zoom r
               * (IZR (WebGL.width (WebGL.canvas r))
                  / IZR (WebGL.height (WebGL.canvas r))))
         / IZR (WebGL.width (WebGL.canvas r)))
      (WebGL.viewportY r
       + dy * (3 / WebGL.zoom r) / IZR (WebGL.height (WebGL.canvas r)))
      (WebGL.zoom r).
Proof.
  intros H. unfold WebGL.pan. rewrite render_normal.
  rewrite render_normal in H.
  destruct r as [[w h cw ch] cfg vX vY z].
  unfold WebGL.setCanvasSize, WebGL.setViewport,
    WebGL.calculateResolutionFactor in *.
  cbn [WebGL.canvas WebGL.width WebGL.height WebGL.clientWidth
       WebGL.clientHeight WebGL.config WebGL.viewportX WebGL.viewportY
       WebGL.zoom] in *.
  injection H as Hw Hh. rewrite Hw, Hh. reflexivity.
Qed.

(** X16: on a rendered state the picture follows a drag with gain 1.5:
    the point shown at a screen position before [pan(dx, dy)] is shown
    one and a half times the drag further afterwards. *)
Theorem X16_pan_moves_picture_by_three_halves (rev : WebGL.Revision)
        (dx dy sx sy : R) (r : WebGL.Renderer) :
  WebGL.render rev r = r ->
  WebGL.zoom r <> 0 ->
  IZR (WebGL.width (WebGL.canvas r)) <> 0 ->
  IZR (WebGL.height (WebGL.canvas r)) <> 0 ->
  shownAt (WebGL.pan rev dx dy r) (sx + 1.5 * dx) (sy + 1.5 * dy)
  = shownAt r sx sy.
Proof.
  intros Hr Hz Hw Hh. rewrite (pan_rendered rev dx dy r Hr).
  unfold shownAt, fragmentAt, WebGL.framePixel, WebGL.pixel, vadd, vdiv,
    WebGL.setViewport.
  cbn [vx vy WebGL.canvas WebGL.width WebGL.height WebGL.viewportX
       WebGL.viewportY WebGL.zoom].
  unfold Q2R; cbn [QArith_base.Qnum QArith_base.Qden].
  f_equal; field; repeat split; assumption.
Qed.

Lemma X16_pan_moves_picture_by_three_halves_witness :
  shownAt (WebGL.pan WebGL.FixedResolution 80 60 (defaultView 1))
          (400 + 1.5 * 80) (300 + 1.5 * 60)
  = shownAt (defaultView 1) 400 300.
Proof.
  apply X16_pan_moves_picture_by_three_halves.
  - apply render_native;
      [cbn [defaultView WebGL.zoom]; lra|reflexivity|reflexivity].
  - cbn [defaultView WebGL.zoom]. lra.
  - cbn [defaultView canvas800 WebGL.canvas WebGL.width]. lra.
  - cbn [defaultView canvas800 WebGL.canvas WebGL.height]. lra.
Defined.

Lemma pan_rendered_stays_rendered (rev : WebGL.Revision) (dx dy : R)
      (r : WebGL.Renderer) :
  WebGL.render rev r = r ->
  WebGL.render rev (WebGL.pan rev dx dy r) = WebGL.pan rev dx dy r.
Proof. intros _. unfold WebGL.pan. apply render_twice. Qed.

(** X17: a drag in Pan mode is independent of its path: on a rendered
    state, two successive pointer moves leave the state of one move to the
    last position. *)
Theorem X17_drag_path_independent (rev : WebGL.Revision)
        (e1 e2 : Index.MouseEvent) (s : Index.MandelbrotSet) :
  Index.isDragging s = true ->
  Index.interactionMode s = Index.Pan ->
  WebGL.render rev (Index.renderer s) = Index.renderer s ->
  Index.mousemove rev e2 (Index.mousemove rev e1 s)
  = Index.mousemove rev e2 s.
Proof.
  intros Hd Hm Hr.
  assert (Hmid : WebGL.render rev
                   (WebGL.pan rev (Index.offsetX e1 - Index.lastX s)
                              (Index.offsetY e1 - Index.lastY s)
                              (Index.renderer s))
                 = WebGL.pan rev (Index.offsetX e1 - Index.lastX s)
                             (Index.offsetY e1 - Index.lastY s)
                             (Index.renderer s))
    by (apply pan_rendered_stays_rendered; exact Hr).
  unfold Index.mousemove. rewrite Hd, Hm.
  cbn [Index.withLast Index.withRenderer Index.isDragging
       Index.interactionMode Index.renderer Index.lastX Index.lastY
       Index.selectionStart].
  rewrite Hd, Hm.
  rewrite (pan_rendered rev _ _ _ Hmid).
  rewrite !(pan_rendered rev _ _ _ Hr).
  unfold WebGL.setViewport.
  cbn [WebGL.canvas WebGL.config WebGL.viewportX WebGL.viewportY WebGL.zoom].
  unfold Index.withLast, Index.withRenderer.
  cbn [Index.renderer Index.isDragging Index.lastX Index.lastY
       Index.interactionMode Index.selectionStart].
  f_equal. f_equal; unfold Rdiv; ring.
Qed.

Lemma X17_drag_path_independent_witness :
  Index.mousemove WebGL.FixedResolution (pointerAt 30 40 0)
    (Index.mousemove WebGL.FixedResolution (pointerAt 10 5 0)
       (Index.withDragging (idle (defaultView 1)) true))
  = Index.mousemove WebGL.FixedResolution (pointerAt 30 40 0)
      (Index.withDragging (idle (defaultView 1)) true).
Proof.
  apply X17_drag_path_independent.
  - reflexivity.
  - reflexivity.
  - apply render_native;
      [cbn [Index.renderer Index.withDragging idle defaultView WebGL.zoom];
       lra|reflexivity|reflexivity].
Defined.

(** ** The invariant of the viewport *)

Lemma resolutionFactor_ge_1 (r : WebGL.Renderer) :
  1 <= WebGL.calculateResolutionFactor r.
Proof.
  unfold WebGL.calculateResolutionFactor, WebGL.zoomThreshold,
    WebGL.baseResolutionFactor, WebGL.maxResolutionFactor.
  destruct (Rleb (WebGL.zoom r) 100) eqn:Hz; [lra|].
  apply Rleb_false_iff in Hz.
  rewrite Rmult_1_l.
  assert (H1 : 1 <= WebGL.zoom r / 100) by lra.
  apply Rmin_glb; [apply Rmin_glb|]; lra.
Qed.

Lemma render_setViewport_positive (rev : WebGL.Revision) (r : WebGL.Renderer)
      (a b z : R) :
  0 < z ->
  (0 < WebGL.clientWidth (WebGL.canvas r))%Z ->
  (0 < WebGL.clientHeight (WebGL.canvas r))%Z ->
  let r' := WebGL.render rev (WebGL.setViewport r a b z) in
  WebGL.zoom r' = z
  /\ WebGL.clientWidth (WebGL.canvas r') = WebGL.clientWidth (WebGL.canvas r)
  /\ WebGL.clientHeight (WebGL.canvas r')
     = WebGL.clientHeight (WebGL.canvas r)
  /\ (0 < WebGL.width (WebGL.canvas r'))%Z
  /\ (0 < WebGL.height (WebGL.canvas r'))%Z.
Proof.
  intros Hz Hw Hh r'. unfold r'. rewrite render_normal.
  generalize (resolutionFactor_ge_1 (WebGL.setViewport r a b z)).
  generalize (WebGL.calculateResolutionFactor (WebGL.setViewport r a b z)).
  intros f Hf.
  cbn [WebGL.setCanvasSize WebGL.setViewport WebGL.canvas WebGL.zoom
       WebGL.clientWidth WebGL.clientHeight WebGL.width WebGL.height].
  repeat split; try reflexivity; destruct rev; try assumption.
  - apply Z.lt_le_trans with (WebGL.clientWidth (WebGL.canvas r));
      [exact Hw|].
    apply Zfloor_lub. apply IZR_lt in Hw. nra.
  - apply Z.lt_le_trans with (WebGL.clientHeight (WebGL.canvas r));
      [exact Hh|].
    apply Zfloor_lub. apply IZR_lt in Hh. nra.
Qed.

Lemma positiveView_update (rev : WebGL.Revision) (s : Index.MandelbrotSet)
      (a b z : R) (s' : Index.MandelbrotSet) :
  Page.positiveView s ->
  0 < z ->
  Index.renderer s'
  = WebGL.render rev (WebGL.setViewport (Index.renderer s) a b z) ->
  Page.positiveView s'.
Proof.
  intros [Hz [Hcw [Hch _]]] Hz' Hr.
  destruct (render_setViewport_positive rev (Index.renderer s) a b z
              Hz' Hcw Hch) as [H1 [H2 [H3 [H4 H5]]]].
  unfold Page.positiveView. rewrite Hr.
  rewrite H1, H2, H3. repeat split; assumption.
Qed.

Lemma wheel_factor_pos (d : R) : 0 < (if Rgtb d 0 then 0.8 else 1.2).
Proof. destruct (Rgtb d 0); lra. Qed.

Lemma positiveView_dispatch (rev : WebGL.Revision)
      (wrev : Page.WheelRevision) (ev : Page.Event)
      (s : Index.MandelbrotSet) :
  Page.positiveView s -> Page.positiveView (Page.dispatch rev wrev ev s).
Proof.
  intros Hs. pose proof Hs as [Hz [Hcw [Hch [Hw Hh]]]].
  assert (Hwin : forall q, Page.positiveView q ->
                           Page.positiveView (Index.windowMouseup q)).
  { intros q Hq. unfold Index.windowMouseup.
    destruct (Index.isSelect _); exact Hq. }
  destruct ev as [e|e|e| |rect e| | |]; cbn [Page.dispatch].
  - unfold Index.mousedown. destruct (Index.isSelect _); exact Hs.
  - unfold Index.mousemove. destruct (Index.isDragging s); [|exact Hs].
    destruct (Index.interactionMode s); [|exact Hs].
    eapply (positiveView_update rev s); [exact Hs|exact Hz|].
    reflexivity.
  - apply Hwin. unfold Index.mouseup.
    destruct (Index.selectionStart s) as [start|]; [|exact Hs].
    destruct (Index.isDragging s && Index.isSelect (Index.interactionMode s));
      [|exact Hs].
    destruct (Rgtb (Rabs (Index.offsetX e - Index.px start)) 10) eqn:HW;
      [|exact Hs].
    destruct (Rgtb (Rabs (Index.offsetY e - Index.py start)) 10) eqn:HH;
      [|exact Hs].
    cbn [andb]. apply Rgtb_true_iff in HW, HH.
    assert (Hf : 0 < Rmin (IZR (WebGL.width (WebGL.canvas (Index.renderer s)))
                           / Rabs (Index.offsetX e - Index.px start))
                          (IZR (WebGL.height (WebGL.canvas (Index.renderer s)))
                           / Rabs (Index.offsetY e - Index.py start))).
    { apply IZR_lt in Hw, Hh.
      apply Rmin_glb_lt; apply Rdiv_lt_0_compat; lra. }
    eapply (positiveView_update rev s);
      [exact Hs|apply Rmult_lt_0_compat; [exact Hz|exact Hf]|].
    unfold Index.zoomToSelection.
    cbn [Index.renderer Index.withRenderer Index.withDragging
         Index.withSelectionStart].
    rewrite (proj1 (updates_batched rev _ _ _ _)).
    reflexivity.
  - apply Hwin. exact Hs.
  - destruct wrev.
    + eapply (positiveView_update rev s);
        [exact Hs
        |apply Rmult_lt_0_compat; [exact Hz|apply wheel_factor_pos]|].
      unfold Index.wheel. cbn [Index.renderer Index.withRenderer].
      rewrite (proj1 (updates_batched rev _ _ _ _)).
      reflexivity.
    + eapply (positiveView_update rev s);
        [exact Hs
        |apply Rmult_lt_0_compat; [exact Hz|apply wheel_factor_pos]|].
      unfold IndexTooltip.wheel. cbn [Index.renderer Index.withRenderer].
      rewrite (proj1 (updates_batched rev _ _ _ _)).
      reflexivity.
  - exact Hs.
  - exact Hs.
  - eapply (positiveView_update rev s); [exact Hs|exact Rlt_0_1|].
    reflexivity.
Qed.

(** X18: whatever the events (pointer, wheel, mode switches, reset, in
    any order, with either wheel listener and either renderer), the zoom
    stays positive and neither the display size nor the raster becomes
    empty, once they are so. *)
Theorem X18_events_keep_zoom_positive (rev : WebGL.Revision)
        (wrev : Page.WheelRevision) (evs : list Page.Event)
        (s : Index.MandelbrotSet) :
  Page.positiveView s -> Page.positiveView (Page.run rev wrev evs s).
Proof.
  revert s. unfold Page.run.
  induction evs as [|ev evs IH]; intros s Hs; [exact Hs|].
  cbn [List.fold_left]. apply IH. apply positiveView_dispatch. exact Hs.
Qed.

Lemma X18_events_keep_zoom_positive_witness :
  Page.positiveView
    (Page.run WebGL.DynamicResolution Page.RelativeWheel
       (Page.WheelOnCanvas rect800 (pointerAt 100 100 (-1))
        :: Page.CheckSelectMode
        :: Page.MouseDown (pointerAt 300 100 0)
        :: Page.MouseUpOnCanvas (pointerAt 500 200 0) :: nil)
       (idle (defaultView 1))).
Proof.
  apply X18_events_keep_zoom_positive.
  unfold Page.positiveView.
  cbn [idle defaultView canvas800 Index.renderer WebGL.zoom WebGL.canvas
       WebGL.clientWidth WebGL.clientHeight WebGL.width WebGL.height].
  repeat split; try lia. lra.
Defined.

(** ** Pointer-up, selections and the tooltip *)

(** X19: pointer-up changes the renderer only when it ends a selection
    drag of more than 10 pixels in both directions: in Pan mode, without
    a drag, without a start, or within the dead zone the renderer is left
    as it is, and the drag is over. *)
Theorem X19_mouseup_changes_only_large_selection (rev : WebGL.Revision)
        (e : Index.MouseEvent) (s : Index.MandelbrotSet) :
  (forall start : Index.Point,
      Index.isDragging s = true ->
      Index.interactionMode s = Index.Select ->
      Index.selectionStart s = Some start ->
      Rabs (Index.offsetX e - Index.px start) <= 10
      \/ Rabs (Index.offsetY e - Index.py start) <= 10) ->
  Index.renderer (Index.mouseup rev e s) = Index.renderer s
  /\ Index.isDragging (Index.mouseup rev e s) = false.
Proof.
  intros H. split; [|reflexivity].
  destruct (Index.selectionStart s) as [start|] eqn:Hs;
    [|apply mouseup_not_selecting; left; exact Hs].
  destruct (Index.isDragging s) eqn:Hd;
    [|apply mouseup_not_selecting; right; left; exact Hd].
  destruct (Index.interactionMode s) eqn:Hm;
    [apply mouseup_not_selecting; right; right; exact Hm|].
  apply (mouseup_dead_zone rev e s start Hs).
  apply H; reflexivity.
Qed.

Lemma X19_mouseup_changes_only_large_selection_witness :
  Index.renderer
    (Index.mouseup WebGL.FixedResolution (pointerAt 305 105 0)
       (selecting {| Index.px := 300; Index.py := 100 |} (defaultView 1)))
  = defaultView 1.
Proof.
  apply (X19_mouseup_changes_only_large_selection WebGL.FixedResolution
           (pointerAt 305 105 0)
           (selecting {| Index.px := 300; Index.py := 100 |} (defaultView 1))).
  intros start _ _ Hs. injection Hs as <-.
  left. cbn [pointerAt Index.offsetX Index.px].
  rewrite Rabs_pos_eq; lra.
Defined.

(** X20: a selection that lies within the canvas never zooms out: above
    the dead zone, with a rectangle no wider and no higher than the
    canvas, the zoom after pointer-up is at least the zoom before. *)
Theorem X20_selection_never_zooms_out (rev : WebGL.Revision)
        (e : Index.MouseEvent) (s : Index.MandelbrotSet)
        (start : Index.Point) :
  let r := Index.renderer s in
  let selW := Rabs (Index.offsetX e - Index.px start) in
  let selH := Rabs (Index.offsetY e - Index.py start) in
  Index.isDragging s = true ->
  Index.interactionMode s = Index.Select ->
  Index.selectionStart s = Some start ->
  10 < selW <= IZR (WebGL.width (WebGL.canvas r)) ->
  10 < selH <= IZR (WebGL.height (WebGL.canvas r)) ->
  0 < WebGL.zoom r ->
  WebGL.zoom r <= WebGL.zoom (Index.renderer (Index.mouseup rev e s)).
Proof.
  intros r selW selH Hd Hm Hs [HW HW'] [HH HH'] Hz.
  assert (Hcw : IZR (WebGL.width (WebGL.canvas r)) <> 0) by lra.
  assert (Hch : IZR (WebGL.height (WebGL.canvas r)) <> 0) by lra.
  destruct (mouseup_selection rev e s start Hd Hm Hs HW HH Hcw Hch)
    as [Hzoom _].
  change (WebGL.vzoom (WebGL.getViewport ?q)) with (WebGL.zoom q) in Hzoom.
  rewrite Hzoom. fold r selW selH.
  assert (Hf : 1 <= Rmin (IZR (WebGL.width (WebGL.canvas r)) / selW)
                         (IZR (WebGL.height (WebGL.canvas r)) / selH)).
  { apply Rmin_glb.
    - apply Rmult_le_reg_r with selW; [lra|].
      unfold Rdiv. rewrite Rmult_assoc, Rinv_l by lra. lra.
    - apply Rmult_le_reg_r with selH; [lra|].
      unfold Rdiv. rewrite Rmult_assoc, Rinv_l by lra. lra. }
  nra.
Qed.

Lemma X20_selection_never_zooms_out_witness :
  WebGL.zoom (defaultView 1)
  <= WebGL.zoom
       (Index.renderer
          (Index.mouseup WebGL.FixedResolution (pointerAt 500 200 0)
             (selecting {| Index.px := 300; Index.py := 100 |}
                        (defaultView 1)))).
Proof.
  assert (HW : Rabs (500 - 300) = 200) by (rewrite Rabs_pos_eq; lra).
  assert (HH : Rabs (200 - 100) = 100) by (rewrite Rabs_pos_eq; lra).
  apply (X20_selection_never_zooms_out WebGL.FixedResolution
           (pointerAt 500 200 0)
           (selecting {| Index.px := 300; Index.py := 100 |} (defaultView 1))
           {| Index.px := 300; Index.py := 100 |});
    try reflexivity;
    cbn [pointerAt selecting defaultView canvas800 Index.renderer
         Index.offsetX Index.offsetY Index.px Index.py WebGL.canvas
         WebGL.width WebGL.height WebGL.zoom];
    try rewrite HW; try rewrite HH; lra.
Defined.

(** X21: above the dead zone pointer-up multiplies the zoom by
    [min(canvasWidth / selectionWidth, canvasHeight / selectionHeight)]
    and moves the centre of the viewport to the point that the frame shows
    at the mirror image of the midpoint of the selection in the horizontal
    centre line of the canvas. *)
Theorem X21_selection_centres_on_mirrored_midpoint (rev : WebGL.Revision)
        (e : Index.MouseEvent) (s : Index.MandelbrotSet)
        (start : Index.Point) :
  let r := Index.renderer s in
  let cw := IZR (WebGL.width (WebGL.canvas r)) in
  let ch := IZR (WebGL.height (WebGL.canvas r)) in
  let selW := Rabs (Index.offsetX e - Index.px start) in
  let selH := Rabs (Index.offsetY e - Index.py start) in
  let midX := (Index.px start + Index.offsetX e) / 2 in
  let midY := (Index.py start + Index.offsetY e) / 2 in
  Index.isDragging s = true ->
  Index.interactionMode s = Index.Select ->
  Index.selectionStart s = Some start ->
  selW > 10 -> selH > 10 -> cw <> 0 -> ch <> 0 ->
  let r' := Index.renderer (Index.mouseup rev e s) in
  WebGL.zoom r' = WebGL.zoom r * Rmin (cw / selW) (ch / selH)
  /\ Vec2 (WebGL.viewportX r') (WebGL.viewportY r')
     = shownAt r midX (ch - midY).
Proof.
  intros r cw ch selW selH midX midY Hd Hm Hs HW HH Hcw Hch r'.
  destruct (mouseup_selection rev e s start Hd Hm Hs HW HH Hcw Hch)
    as [Hzoom [HX HY]].
  fold r' r cw ch selW selH midX midY in Hzoom, HX, HY.
  cbn [WebGL.getViewport WebGL.x WebGL.y WebGL.vzoom] in Hzoom, HX, HY.
  split; [exact Hzoom|].
  rewrite (shownAt_spec r midX (ch - midY) Hch). fold cw ch.
  rewrite HX, HY. reflexivity.
Qed.

Lemma X21_selection_centres_on_mirrored_midpoint_witness :
  WebGL.zoom
    (Index.renderer
       (Index.mouseup WebGL.FixedResolution (pointerAt 500 200 0)
          (selecting {| Index.px := 300; Index.py := 100 |}
                     (defaultView 1))))
  = 1 * Rmin (IZR 800 / Rabs (500 - 300)) (IZR 600 / Rabs (200 - 100)).
Proof.
  assert (HW : Rabs (500 - 300) = 200) by (rewrite Rabs_pos_eq; lra).
  assert (HH : Rabs (200 - 100) = 100) by (rewrite Rabs_pos_eq; lra).
  refine (proj1 (X21_selection_centres_on_mirrored_midpoint
                   WebGL.FixedResolution (pointerAt 500 200 0)
                   (selecting {| Index.px := 300; Index.py := 100 |}
                              (defaultView 1))
                   {| Index.px := 300; Index.py := 100 |} _ _ _ _ _ _ _));
    try reflexivity;
    cbn [pointerAt selecting defaultView canvas800 Index.renderer
         Index.offsetX Index.offsetY Index.px Index.py WebGL.canvas
         WebGL.width WebGL.height WebGL.zoom];
    try rewrite HW; try rewrite HH; lra.
Defined.

(** X22: the tooltip reports, for a screen position, the point that the
    frame shows at the mirror image of that position in the horizontal
    centre line of the canvas. *)
Theorem X22_tooltip_reports_mirrored_point (s : Index.MandelbrotSet)
        (sx sy : R) :
  let r := Index.renderer s in
  IZR (WebGL.width (WebGL.canvas r)) <> 0 ->
  IZR (WebGL.height (WebGL.canvas r)) <> 0 ->
  IndexTooltip.screenToComplex s sx sy
  = shownAt r sx (IZR (WebGL.height (WebGL.canvas r)) - sy).
Proof.
  intros r Hw Hh.
  rewrite (shownAt_spec r _ _ Hh).
  apply tooltip_screenToComplex_mirrored; assumption.
Qed.

Lemma X22_tooltip_reports_mirrored_point_witness :
  IndexTooltip.screenToComplex (idle (defaultView 1)) 400 0
  = shownAt (defaultView 1) 400 (IZR 600 - 0).
Proof.
  apply (X22_tooltip_reports_mirrored_point (idle (defaultView 1)) 400 0);
    cbn [idle defaultView canvas800 Index.renderer WebGL.canvas
         WebGL.width WebGL.height]; lra.
Defined.

(** ** The wheel *)

(** X23: zoom to cursor in the latest [index.ts].  With the raster at the
    display size and the zoom, before and after, up to the threshold of
    the dynamic resolution, a wheel event leaves under the pointer the
    point that was there, and multiplies the zoom by 0.8 (scroll down) or
    1.2. *)
Theorem X23_relative_wheel_zooms_to_cursor (rev : WebGL.Revision)
        (rect : Index.DOMRect) (e : Index.MouseEvent)
        (s : Index.MandelbrotSet) :
  let r := Index.renderer s in
  let r' := Index.renderer (IndexTooltip.wheel rev rect e s) in
  let sx := Index.clientX e - Index.left rect in
  let sy := Index.clientY e - Index.top rect in
  WebGL.width (WebGL.canvas r) = WebGL.clientWidth (WebGL.canvas r) ->
  WebGL.height (WebGL.canvas r) = WebGL.clientHeight (WebGL.canvas r) ->
  Index.rectWidth rect = IZR (WebGL.clientWidth (WebGL.canvas r)) ->
  Index.rectHeight rect = IZR (WebGL.clientHeight (WebGL.canvas r)) ->
  IZR (WebGL.clientWidth (WebGL.canvas r)) <> 0 ->
  IZR (WebGL.clientHeight (WebGL.canvas r)) <> 0 ->
  0 < WebGL.zoom r -> WebGL.zoom r * 1.2 <= 100 ->
  WebGL.zoom r'
  = WebGL.zoom r * (if Rgtb (Index.deltaY e) 0 then 0.8 else 1.2)
  /\ shownAt r' sx sy = shownAt r sx sy.
Proof.
  intros r r' sx sy Hw Hh Hrw Hrh Hcw Hch Hz Hz'.
  assert (Hf : 0 < (if Rgtb (Index.deltaY e) 0 then 0.8 else 1.2) <= 1.2)
    by (destruct (Rgtb (Index.deltaY e) 0); lra).
  set (f := if Rgtb (Index.deltaY e) 0 then 0.8 else 1.2) in *.
  assert (Hnew : WebGL.zoom r * f <= 100) by nra.
  unfold r', IndexTooltip.wheel.
  cbn [Index.renderer Index.withRenderer WebGL.getViewport
       WebGL.x WebGL.y WebGL.vzoom].
  fold r f. rewrite update_both_native; [|lra|exact Hnew|exact Hw|exact Hh].
  split; [reflexivity|].
  unfold shownAt, fragmentAt, WebGL.framePixel, WebGL.pixel, vadd, vdiv,
    WebGL.setViewport.
  cbn [vx vy WebGL.canvas WebGL.viewportX WebGL.viewportY WebGL.zoom].
  rewrite Hw, Hh, Hrw, Hrh. fold sx sy.
  unfold Q2R; cbn [QArith_base.Qnum QArith_base.Qden]; unfold Rdiv.
  generalize (/ WebGL.zoom r) (/ (WebGL.zoom r * f)). intros iz iz'.
  f_equal; field; repeat split; assumption.
Qed.

Lemma X23_relative_wheel_zooms_to_cursor_witness :
  shownAt (Index.renderer
             (IndexTooltip.wheel WebGL.DynamicResolution rect800
                (pointerAt 400 0 (-100)) (idle (defaultView 1))))
          (400 - 0) (0 - 0)
  = shownAt (defaultView 1) (400 - 0) (0 - 0).
Proof.
  refine (proj2 (X23_relative_wheel_zooms_to_cursor WebGL.DynamicResolution
                   rect800 (pointerAt 400 0 (-100)) (idle (defaultView 1))
                   _ _ _ _ _ _ _ _));
    try reflexivity;
    cbn [idle defaultView canvas800 Index.renderer WebGL.canvas
         WebGL.clientWidth WebGL.clientHeight WebGL.zoom]; lra.
Defined.

(** X24: the wheel listener of [src/index.ts] keeps the centre of the
    viewport when the pointer is at the centre of the canvas, and
    multiplies the zoom by 0.8 (scroll down) or 1.2. *)
Theorem X24_ndc_wheel_at_canvas_centre (rev : WebGL.Revision)
        (e : Index.MouseEvent) (s : Index.MandelbrotSet)
        (rect : Index.DOMRect) :
  let r := Index.renderer s in
  let cw := IZR (WebGL.width (WebGL.canvas r)) in
  let ch := IZR (WebGL.height (WebGL.canvas r)) in
  cw <> 0 -> ch <> 0 ->
  Index.clientX e - Index.left rect = cw / 2 ->
  Index.clientY e - Index.top rect = ch / 2 ->
  WebGL.getViewport (Index.renderer (Index.wheel rev rect e s))
  = {| WebGL.x := WebGL.viewportX r; WebGL.y := WebGL.viewportY r;
       WebGL.vzoom := WebGL.zoom r
                      * (if Rgtb (Index.deltaY e) 0 then 0.8 else 1.2) |}.
Proof. exact (wheel_at_centre rev e s rect). Qed.

Lemma X24_ndc_wheel_at_canvas_centre_witness :
  WebGL.getViewport
    (Index.renderer
       (Index.wheel WebGL.FixedResolution rect800 (pointerAt 400 300 1)
          (idle (defaultView 1))))
  = {| WebGL.x := -0.5; WebGL.y := 0;
       WebGL.vzoom := 1 * (if Rgtb 1 0 then 0.8 else 1.2) |}.
Proof.
  apply (X24_ndc_wheel_at_canvas_centre WebGL.FixedResolution
           (pointerAt 400 300 1) (idle (defaultView 1)) rect800);
    cbn [idle defaultView canvas800 pointerAt rect800 Index.renderer
         Index.clientX Index.clientY Index.left Index.top WebGL.canvas
         WebGL.width WebGL.height]; lra.
Defined.

(** ** The Canvas-2D revision *)

(** X25: in the Canvas-2D revision the selection agrees with the picture:
    above the dead zone pointer-up moves the centre of the viewport to the
    point that [render] draws at the midpoint of the selection (for a
    midpoint on a pixel), and multiplies the zoom by the smaller ratio. *)
Theorem X25_canvas2d_selection_centres_on_midpoint
        (e : Index.MouseEvent) (s : Canvas2DView.MandelbrotSet)
        (start : Index.Point) (mx my : Z) :
  let selW := Rabs (Index.offsetX e - Index.px start) in
  let selH := Rabs (Index.offsetY e - Index.py start) in
  Canvas2DView.isDragging s = true ->
  Canvas2DView.interactionMode s = Index.Select ->
  Canvas2DView.selectionStart s = Some start ->
  selW > 10 -> selH > 10 ->
  (Index.px start + Index.offsetX e) / 2 = IZR mx ->
  (Index.py start + Index.offsetY e) / 2 = IZR my ->
  let s' := Canvas2DView.mouseup e s in
  Vec2 (Canvas2DView.viewportX s') (Canvas2DView.viewportY s')
  = Canvas2DView.renderedPoint s mx my
  /\ Canvas2DView.zoom s'
     = Canvas2DView.zoom s
       * Rmin (IZR (Canvas2DView.width s) / selW)
              (IZR (Canvas2DView.height s) / selH)
  /\ Canvas2DView.isDragging s' = false
  /\ Canvas2DView.selectionStart s' = None.
Proof.
  intros selW selH Hd Hm Hs HW HH HmX HmY s'.
  unfold s', Canvas2DView.mouseup. rewrite Hs, Hd, Hm.
  cbn [Index.isSelect andb].
  rewrite (proj2 (Rgtb_true_iff _ _)) by exact HW.
  rewrite (proj2 (Rgtb_true_iff _ _)) by exact HH.
  cbn [andb]. unfold Canvas2DView.zoomToSelection.
  rewrite HmX, HmY.
  unfold Canvas2DView.withDrag, Canvas2DView.withView,
    Canvas2DView.renderedPoint, Canvas2D.pixel.
  cbn [Canvas2DView.viewportX Canvas2DView.viewportY Canvas2DView.zoom
       Canvas2DView.isDragging Canvas2DView.selectionStart
       Canvas2DView.width Canvas2DView.height].
  repeat split.
  unfold Rdiv.
  generalize (/ Canvas2DView.zoom s) (/ IZR (Canvas2DView.width s))
             (/ IZR (Canvas2DView.height s)).
  intros iz iw ih. f_equal; field.
Qed.

Lemma X25_canvas2d_selection_centres_on_midpoint_witness :
  Canvas2DView.zoom
    (Canvas2DView.mouseup (pointerAt 500 200 0)
       {| Canvas2DView.width := 800; Canvas2DView.height := 600;
          Canvas2DView.maxIterations := 100;
          Canvas2DView.viewportX := -0.5; Canvas2DView.viewportY := 0;
          Canvas2DView.zoom := 1;
          Canvas2DView.isDragging := true;
          Canvas2DView.lastX := 300; Canvas2DView.lastY := 100;
          Canvas2DView.interactionMode := Index.Select;
          Canvas2DView.selectionStart :=
            Some {| Index.px := 300; Index.py := 100 |} |})
  = 1 * Rmin (IZR 800 / Rabs (500 - 300)) (IZR 600 / Rabs (200 - 100)).
Proof.
  assert (HW : Rabs (500 - 300) = 200) by (rewrite Rabs_pos_eq; lra).
  assert (HH : Rabs (200 - 100) = 100) by (rewrite Rabs_pos_eq; lra).
  refine (proj1 (proj2 (X25_canvas2d_selection_centres_on_midpoint
                   (pointerAt 500 200 0) _
                   {| Index.px := 300; Index.py := 100 |} 400 150
                   _ _ _ _ _ _ _)));
    try reflexivity;
    cbn [pointerAt Index.offsetX Index.offsetY Index.px Index.py];
    try rewrite HW; try rewrite HH; lra.
Defined.

(** ** The decimals of the tooltip *)

Lemma ln_10_pos : 0 < ln 10.
Proof. rewrite <- ln_1. apply ln_increasing; lra. Qed.

Lemma log10_le (a b : R) :
  0 < a <= b -> TooltipFormat.log10 a <= TooltipFormat.log10 b.
Proof.
  intros [Ha Hab]. unfold TooltipFormat.log10.
  assert (H10 := ln_10_pos).
  assert (Hln : ln a <= ln b).
  { destruct Hab as [Hlt|Heq]; [left; apply ln_increasing; lra|].
    rewrite Heq. lra. }
  apply Rmult_le_compat_r; [|exact Hln].
  apply Rlt_le, Rinv_0_lt_compat. exact H10.
Qed.

(** X26: [formatCoordinate] prints between 4 and 15 decimals, never fewer
    at a larger zoom, and exactly 4 for every zoom below 1000. *)
Theorem X26_tooltip_decimals (z1 z2 : R) :
  0 < z1 <= z2 ->
  (4 <= TooltipFormat.decimals z1 <= 15)%Z
  /\ (TooltipFormat.decimals z1 <= TooltipFormat.decimals z2)%Z
  /\ (z1 < 1000 -> TooltipFormat.decimals z1 = 4%Z).
Proof.
  intros Hz. unfold TooltipFormat.decimals.
  split; [lia|]. split.
  - assert (H := Zfloor_le _ _ (log10_le z1 z2 Hz)). lia.
  - intros Hlt.
    assert (H10 := ln_10_pos).
    assert (H1000 : ln 1000 = 3 * ln 10).
    { replace 1000 with (10 ^ 3) by lra. rewrite ln_pow by lra.
      simpl INR. lra. }
    assert (Hln : ln z1 < ln 1000) by (apply ln_increasing; lra).
    assert (Hlog : TooltipFormat.log10 z1 < 3).
    { unfold TooltipFormat.log10.
      apply Rmult_lt_reg_r with (ln 10); [exact H10|].
      unfold Rdiv. rewrite Rmult_assoc, Rinv_l by lra. lra. }
    assert (Hfl : (Zfloor (TooltipFormat.log10 z1) < 3)%Z).
    { apply lt_IZR. generalize (Zfloor_bound (TooltipFormat.log10 z1)). lra. }
    lia.
Qed.

Lemma X26_tooltip_decimals_witness :
  TooltipFormat.decimals 50 = 4%Z.
Proof.
  assert (Hz : 0 < 50 <= 50) by lra.
  destruct (X26_tooltip_decimals 50 50 Hz) as [_ [_ H]].
  apply H. lra.
Defined.

(** ** The loop bound, the raster and the end of a drag *)

Lemma WebGL_evaluate_saturated (c : vec2) (m : Z) :
  (1000 <= m)%Z ->
  bounded_upto c 1000 ->
  WebGL.evaluate c m = Some (smooth 999 (orbit c 1000)).
Proof.
  intros Hm Hb.
  assert (Hrun : WebGL.iterate c m = Some (Loop 999 (orbit c 1000) 1000)).
  { unfold WebGL.iterate.
    pose proof (WebGL_for_loop_bounded c m 1000 0 0
                  (Z.to_nat WebGL.LOOP_BOUND) 0) as Hloop.
    change (Z.of_nat 0) with 0%Z in Hloop.
    change (orbit c 0) with (Vec2 0 0) in Hloop.
    rewrite Hloop.
    - reflexivity.
    - unfold WebGL.LOOP_BOUND. lia.
    - intros j Hj. apply Hb. lia.
    - unfold WebGL.LOOP_BOUND. lia. }
  unfold WebGL.evaluate. rewrite Hrun. cbn [option_map].
  unfold WebGL.smoothing. cbn [count zlast].
  rewrite (proj2 (Rltb_true_iff _ _)) by (apply IZR_lt; lia).
  reflexivity.
Qed.

(** X27: in the inlined shader of [webgl-renderer.ts] a cap above 1000
    has the effect of the cap 1000: for every point the value is the one
    computed with [maxIterations = 1000]. *)
Theorem X27_inlined_cap_saturates_at_1000 (c : vec2) (m : Z) :
  (1000 <= m)%Z ->
  WebGL.evaluate c m = WebGL.evaluate c 1000.
Proof.
  intros Hm.
  destruct (bounded_or_escapes c 1000) as [Hb|[n [Hn He]]].
  - rewrite (WebGL_evaluate_saturated c m Hm Hb).
    rewrite (WebGL_evaluate_saturated c 1000 (Z.le_refl _) Hb).
    reflexivity.
  - assert (Hb : (Z.of_nat n < WebGL.LOOP_BOUND)%Z)
      by (unfold WebGL.LOOP_BOUND; lia).
    rewrite (proj2 (WebGL_evaluate_escape c m n He ltac:(lia) Hb)).
    rewrite (proj2 (WebGL_evaluate_escape c 1000 n He ltac:(lia) Hb)).
    reflexivity.
Qed.

Lemma X27_inlined_cap_saturates_at_1000_witness :
  WebGL.evaluate (Vec2 0 1) 5000 = WebGL.evaluate (Vec2 0 1) 1000.
Proof.
  apply X27_inlined_cap_saturates_at_1000. lia.
Defined.

(** X28: with dynamic resolution a render leaves a raster between the
    display size and twice the display size in each direction: exactly the
    display size for a zoom up to 100, exactly twice from zoom 200 on. *)
Theorem X28_dynamic_raster_between_1x_and_2x (r : WebGL.Renderer) :
  let cw := WebGL.clientWidth (WebGL.canvas r) in
  let ch := WebGL.clientHeight (WebGL.canvas r) in
  let r' := WebGL.render WebGL.DynamicResolution r in
  (0 <= cw)%Z -> (0 <= ch)%Z ->
  (cw <= WebGL.width (WebGL.canvas r') <= 2 * cw)%Z
  /\ (ch <= WebGL.height (WebGL.canvas r') <= 2 * ch)%Z
  /\ (WebGL.zoom r <= 100 ->
      WebGL.width (WebGL.canvas r') = cw
      /\ WebGL.height (WebGL.canvas r') = ch)
  /\ (200 <= WebGL.zoom r ->
      WebGL.width (WebGL.canvas r') = (2 * cw)%Z
      /\ WebGL.height (WebGL.canvas r') = (2 * ch)%Z).
Proof.
  intros cw ch r' Hcw Hch. unfold r'. rewrite render_normal.
  cbn [WebGL.setCanvasSize WebGL.canvas WebGL.width WebGL.height].
  fold cw ch.
  assert (Hge := resolutionFactor_ge_1 r).
  assert (Hle : WebGL.calculateResolutionFactor r <= 2).
  { unfold WebGL.calculateResolutionFactor, WebGL.zoomThreshold,
      WebGL.baseResolutionFactor, WebGL.maxResolutionFactor.
    destruct (Rleb (WebGL.zoom r) 100); [lra|]. apply Rmin_r. }
  assert (Hlow : WebGL.zoom r <= 100 -> WebGL.calculateResolutionFactor r = 1).
  { intros Hz. unfold WebGL.calculateResolutionFactor, WebGL.zoomThreshold,
      WebGL.baseResolutionFactor.
    rewrite (proj2 (Rleb_true_iff _ _)) by lra. reflexivity. }
  assert (Hhigh : 200 <= WebGL.zoom r ->
                  WebGL.calculateResolutionFactor r = 2).
  { intros Hz. unfold WebGL.calculateResolutionFactor, WebGL.zoomThreshold,
      WebGL.baseResolutionFactor, WebGL.maxResolutionFactor.
    rewrite (proj2 (Rleb_false_iff _ _)) by lra.
    rewrite Rmult_1_l, (Rmin_right (WebGL.zoom r / 100) 2) by lra.
    apply Rmin_left. lra. }
  set (f := WebGL.calculateResolutionFactor r) in *.
  assert (Hbound : forall k : Z,
             (0 <= k)%Z -> (k <= Zfloor (IZR k * f) <= 2 * k)%Z).
  { intros k Hk. apply IZR_le in Hk. split.
    - apply Zfloor_lub. nra.
    - apply le_IZR. rewrite mult_IZR.
      generalize (Zfloor_bound (IZR k * f)). nra. }
  split; [apply Hbound; exact Hcw|]. split; [apply Hbound; exact Hch|].
  split; intros Hz.
  - rewrite (Hlow Hz), !Rmult_1_r, !ZfloorZ. split; reflexivity.
  - rewrite (Hhigh Hz).
    replace (IZR cw * 2) with (IZR (2 * cw)) by (rewrite mult_IZR; lra).
    replace (IZR ch * 2) with (IZR (2 * ch)) by (rewrite mult_IZR; lra).
    rewrite !ZfloorZ. split; reflexivity.
Qed.

Lemma X28_dynamic_raster_between_1x_and_2x_witness :
  WebGL.width
    (WebGL.canvas (WebGL.render WebGL.DynamicResolution (defaultView 250)))
  = (2 * 800)%Z.
Proof.
  assert (Hcw : (0 <= WebGL.clientWidth (WebGL.canvas (defaultView 250)))%Z)
    by (cbn [defaultView canvas800 WebGL.canvas WebGL.clientWidth]; lia).
  assert (Hch : (0 <= WebGL.clientHeight (WebGL.canvas (defaultView 250)))%Z)
    by (cbn [defaultView canvas800 WebGL.canvas WebGL.clientHeight]; lia).
  destruct (X28_dynamic_raster_between_1x_and_2x (defaultView 250) Hcw Hch)
    as [_ [_ [_ Hhigh]]].
  apply Hhigh. cbn [defaultView WebGL.zoom]. lra.
Defined.

(** X29: once the button is released, on the canvas or elsewhere, the
    drag is over: no later pointer move changes the state, in either
    mode, until the next pointer-down. *)
Theorem X29_no_move_after_release (rev : WebGL.Revision)
        (wrev : Page.WheelRevision) (e e' : Index.MouseEvent)
        (s : Index.MandelbrotSet) :
  let up := Page.dispatch rev wrev (Page.MouseUpOnCanvas e) s in
  let out := Page.dispatch rev wrev Page.MouseUpElsewhere s in
  Page.dispatch rev wrev (Page.MouseMove e') up = up
  /\ Page.dispatch rev wrev (Page.MouseMove e') out = out
  /\ Index.isDragging up = false
  /\ Index.isDragging out = false
  /\ (Index.interactionMode s = Index.Select ->
      Index.selectionStart up = None /\ Index.selectionStart out = None).
Proof.
  intros up out.
  assert (Hwin : forall q, Index.isDragging (Index.windowMouseup q) = false).
  { intros q. unfold Index.windowMouseup.
    destruct (Index.isSelect _); reflexivity. }
  assert (Hmode : forall q,
             Index.interactionMode (Index.mouseup rev e q)
             = Index.interactionMode q).
  { intros q. unfold Index.mouseup.
    destruct (Index.selectionStart q); [|reflexivity].
    destruct (Index.isDragging q && Index.isSelect (Index.interactionMode q));
      [|reflexivity].
    destruct (Rgtb _ 10 && Rgtb _ 10); reflexivity. }
  assert (Hmove : forall q, Index.isDragging q = false ->
                            Index.mousemove rev e' q = q).
  { intros q Hq. unfold Index.mousemove. rewrite Hq. reflexivity. }
  unfold up, out. cbn [Page.dispatch].
  repeat split; try apply Hmove; try apply Hwin.
  - unfold Index.windowMouseup.
    cbn [Index.withDragging Index.interactionMode].
    rewrite Hmode, H. reflexivity.
  - unfold Index.windowMouseup.
    cbn [Index.withDragging Index.interactionMode].
    rewrite H. reflexivity.
Qed.

Lemma X29_no_move_after_release_witness :
  Index.selectionStart
    (Page.dispatch WebGL.FixedResolution Page.NdcWheel
       (Page.MouseUpOnCanvas (pointerAt 305 105 0))
       (selecting {| Index.px := 300; Index.py := 100 |} (defaultView 1)))
  = None.
Proof.
  destruct (X29_no_move_after_release WebGL.FixedResolution Page.NdcWheel
              (pointerAt 305 105 0) (pointerAt 0 0 0)
              (selecting {| Index.px := 300; Index.py := 100 |}
                         (defaultView 1)))
    as [_ [_ [_ [_ H]]]].
  apply H. reflexivity.
Defined.
